(** * BSHS_ES: the weather proxy and the condition keyword scan

    A shallow embedding of the two pieces of JavaScript the repository
    documents and ships:

    - [Display]: the [conditionLower] keyword scan of the page script, as
      excerpted in the flaw reports (CURRENT_FLAWS.md, issue 5, and the
      Index.html flaws report, issue 12);
    - [Proxy]: the serverless function [api/weather.js].

    Strings are byte strings ([string]); the response headers are a finite
    map; the handler's effects (response object, server log, outbound
    calls, exceptions) are threaded through a small state-and-exception
    monad. *)

From Stdlib Require Import String Ascii List NArith ZArith Bool Lia DecimalString.
From stdpp Require Import base strings gmap.

Open Scope string_scope.

(** ** JavaScript string primitives used by both pieces *)

Module JS.

(** [s.includes(search)]: [search] occurs somewhere in [s]. *)
Fixpoint includes (s search : string) : bool :=
  String.prefix search s ||
  match s with
  | EmptyString => false
  | String _ s' => includes s' search
  end.

(** ASCII part of [String.prototype.toLowerCase]. *)
Definition lower_ascii (c : ascii) : ascii :=
  let n := N_of_ascii c in
  if (65 <=? n)%N && (n <=? 90)%N then ascii_of_N (n + 32) else c.

Fixpoint toLowerCase (s : string) : string :=
  match s with
  | EmptyString => EmptyString
  | String c s' => String (lower_ascii c) (toLowerCase s')
  end.

End JS.

(** ** The display layer's keyword scan *)

Module Display.
Import JS.

(** The three variables the scan assigns. *)
Record View := mkView {
  icon : string;
  statusText : string;
  suspensionInfo : string
}.

Definition icon_cloudy : string := "☁️".
Definition icon_partly : string := "⛅".

(** The excerpted [if / else if] chain.  [condition] and [conditionLower]
    are its two free variables; the templates are elided in the excerpt and
    kept as written there; when neither test succeeds the excerpt assigns
    nothing, so the variables keep the values in [v]. *)
Definition scan (condition conditionLower : string) (v : View) : View :=
  if includes conditionLower "cloudy" then
    {| icon := icon_cloudy; statusText := condition; suspensionInfo := "..." |}
  else if includes conditionLower "partly" then
    {| icon := icon_partly; statusText := condition; suspensionInfo := "..." |}
  else v.

(** Modelled from the spec: the excerpt does not show where
    [conditionLower] is computed; the page contract has the condition text
    lower-cased before the scan. *)
Definition select (condition : string) (v : View) : View :=
  scan condition (toLowerCase condition) v.

End Display.

(** ** The weather proxy, [api/weather.js] *)

Module Proxy.
Import JS.

(** *** Values the handler touches *)

(** A thrown JavaScript error, as far as the catch block reads it. *)
Record Error := mkError { message : string; stack : string }.

(** The host's JSON support: [response.json()] parses the upstream body
    into a value the handler never inspects, and [res.json(data)]
    serializes it again. *)
Class Runtime := {
  JSValue : Type;
  JSON_parse : string -> Error + JSValue;
  JSON_stringify : JSValue -> string
}.

(** The inbound request; the handler reads only [req.method]. *)
Record Request := mkRequest { method : string }.

(** [process.env]: a variable is a string or undefined. *)
Record Env := mkEnv { WEATHER_API_KEY : option string }.

(** JavaScript truthiness of [process.env.X]: undefined and the empty
    string are falsy, every other string is truthy. *)
Definition truthy (v : option string) : bool :=
  match v with
  | None => false
  | Some EmptyString => false
  | Some (String _ _) => true
  end.

(** A value interpolated in a template literal. *)
Definition interpolate (v : option string) : string :=
  match v with
  | None => "undefined"
  | Some s => s
  end.

(** The upstream [Response]: its status, and what reading its body gives
    (the decoded text, or a rejection when the stream breaks). *)
Inductive BodyRead :=
| BodyText (t : string)
| BodyFails (e : Error).

Record Response := mkResponse { status : N; body_read : BodyRead }.

(** [response.ok]: the status is in the range 200-299. *)
Definition ok (r : Response) : bool :=
  ((200 <=? status r) && (status r <=? 299))%N.

Inductive FetchResult :=
| Rejects (e : Error)
| Resolves (r : Response).

(** One outbound call: the URL and the request headers. *)
Record Call := mkCall { url : string; call_headers : list (string * string) }.

(** What lies outside the handler: the network and the clock. *)
Record World := mkWorld {
  fetch_oracle : Call -> FetchResult;
  now_iso : string
}.

(** A field of an object literal passed to [res.json]. *)
Inductive Field :=
| FStr (s : string)
| FNum (n : N).

(** An argument of [console.error]. *)
Inductive LogArg :=
| LStr (s : string)
| LNum (n : N)
| LObj (fields : list (string * string)).

(** *** [encodeURIComponent] *)

Definition hex_digit (upper : bool) (n : N) : ascii :=
  if (n <? 10)%N then ascii_of_N (48 + n)
  else ascii_of_N ((if upper then 55 else 87) + n).

Definition uri_unreserved (c : ascii) : bool :=
  let n := N_of_ascii c in
  ((65 <=? n) && (n <=? 90) || (97 <=? n) && (n <=? 122) ||
   (48 <=? n) && (n <=? 57))%N ||
  existsb (Ascii.eqb c)
    ["-"; "_"; "."; "!"; "~"; "*"; "'"; "("; ")"]%char.

Fixpoint encodeURIComponent (s : string) : string :=
  match s with
  | EmptyString => EmptyString
  | String c s' =>
      if uri_unreserved c then String c (encodeURIComponent s')
      else
        let n := N_of_ascii c in
        String "%" (String (hex_digit true (n / 16))
          (String (hex_digit true (n mod 16)) (encodeURIComponent s')))
  end.

(** *** JSON text of strings and of object literals *)

Definition dquote : ascii := Eval cbv in ascii_of_N 34.
Definition backslash : ascii := Eval cbv in ascii_of_N 92.

(** The escape [JSON.stringify] writes for one character of a string. *)
Definition json_escape (c : ascii) : string :=
  let n := N_of_ascii c in
  if (n =? 34)%N then String backslash (String dquote EmptyString)
  else if (n =? 92)%N then String backslash (String backslash EmptyString)
  else if (n =? 8)%N then String backslash "b"
  else if (n =? 12)%N then String backslash "f"
  else if (n =? 10)%N then String backslash "n"
  else if (n =? 13)%N then String backslash "r"
  else if (n =? 9)%N then String backslash "t"
  else if (n <? 32)%N then
    String backslash
      (String "u" (String "0" (String "0"
         (String (hex_digit false (n / 16))
            (String (hex_digit false (n mod 16)) EmptyString)))))
  else String c EmptyString.

Fixpoint json_escape_all (s : string) : string :=
  match s with
  | EmptyString => EmptyString
  | String c s' => json_escape c ++ json_escape_all s'
  end.

Definition json_quote (s : string) : string :=
  String dquote (json_escape_all s ++ String dquote EmptyString).

Definition decimal_of_N (n : N) : string :=
  NilEmpty.string_of_uint (N.to_uint n).

Definition json_of_field (f : Field) : string :=
  match f with
  | FStr s => json_quote s
  | FNum n => decimal_of_N n
  end.

Fixpoint json_join (items : list string) : string :=
  match items with
  | [] => EmptyString
  | [x] => x
  | x :: rest => x ++ "," ++ json_join rest
  end.

Definition json_of_fields (fs : list (string * Field)) : string :=
  "{" ++ json_join
           (map (fun kv => json_quote (fst kv) ++ ":" ++ json_of_field (snd kv))
                fs)
      ++ "}".

Section Handler.
Context {RT : Runtime}.

(** What [res] sends: nothing ([res.end()]), an object literal, or the
    parsed upstream value. *)
Inductive Payload :=
| Empty
| Obj (fields : list (string * Field))
| Data (v : JSValue).

(** The response object [res]. *)
Record Res := mkRes {
  headers : gmap string string;
  statusCode : N;
  sent : option Payload
}.

(** Everything the handler can change. *)
Record State := mkState {
  res : Res;
  log : list (list LogArg);
  calls : list Call
}.

(** *** The effect monad: state that survives a throw *)

Definition M (A : Type) : Type := State -> (Error + A) * State.

Definition ret {A} (a : A) : M A := fun s => (inr a, s).

Definition bind {A B} (c : M A) (k : A -> M B) : M B :=
  fun s =>
    match c s with
    | (inl e, s') => (inl e, s')
    | (inr a, s') => k a s'
    end.

Definition throw {A} (e : Error) : M A := fun s => (inl e, s).

Definition try_catch {A} (c : M A) (h : Error -> M A) : M A :=
  fun s =>
    match c s with
    | (inl e, s') => h e s'
    | (inr a, s') => (inr a, s')
    end.

Notation "x <- c ;; k" := (bind c (fun x => k))
  (at level 100, c at next level, right associativity).
Notation "c ;; k" := (bind c (fun _ => k))
  (at level 100, right associativity).

Definition update_res (f : Res -> Res) : M unit :=
  fun s => (inr tt, {| res := f (res s); log := log s; calls := calls s |}).

Definition res_setHeader (name value : string) : M unit :=
  update_res (fun r =>
    {| headers := <[name := value]> (headers r);
       statusCode := statusCode r; sent := sent r |}).

Definition res_status (code : N) : M unit :=
  update_res (fun r =>
    {| headers := headers r; statusCode := code; sent := sent r |}).

Definition res_json (p : Payload) : M unit :=
  update_res (fun r =>
    {| headers := headers r; statusCode := statusCode r; sent := Some p |}).

Definition res_end : M unit :=
  update_res (fun r =>
    {| headers := headers r; statusCode := statusCode r;
       sent := Some Empty |}).

Definition console_error (args : list LogArg) : M unit :=
  fun s =>
    (inr tt, {| res := res s; log := log s ++ [args]; calls := calls s |}).

(** [await fetch(url, {headers})]: the call is recorded, then the promise
    settles. *)
Definition fetch (w : World) (u : string) (hs : list (string * string))
  : M Response :=
  fun s =>
    let c := {| url := u; call_headers := hs |} in
    let s' := {| res := res s; log := log s; calls := calls s ++ [c] |} in
    match fetch_oracle w c with
    | Rejects e => (inl e, s')
    | Resolves r => (inr r, s')
    end.

(** [await response.text()]. *)
Definition response_text (r : Response) : M string :=
  match body_read r with
  | BodyText t => ret t
  | BodyFails e => throw e
  end.

(** [await response.json()]. *)
Definition response_json (r : Response) : M JSValue :=
  match body_read r with
  | BodyText t =>
      match JSON_parse t with
      | inl e => throw e
      | inr v => ret v
      end
  | BodyFails e => throw e
  end.

(** *** The handler *)

Definition location : string := "Balangkayan,Eastern Samar,Philippines".

Definition forecast_url (apiKey : option string) : string :=
  "https://api.weatherapi.com/v1/forecast.json?key=" ++ interpolate apiKey
  ++ "&q=" ++ encodeURIComponent location ++ "&days=1&aqi=no&alerts=yes".

Definition method_not_allowed : Payload :=
  Obj [("error", FStr "Method not allowed");
       ("message", FStr "Only GET requests are supported")].

Definition not_configured : Payload :=
  Obj [("error", FStr "Server configuration error");
       ("message", FStr "Weather service is not properly configured")].

Definition upstream_error (code : N) : Payload :=
  Obj [("error", FStr "Weather API error");
       ("message", FStr "Unable to fetch weather data from provider");
       ("status", FNum code)].

Definition unavailable : Payload :=
  Obj [("error", FStr "Failed to fetch weather data");
       ("message", FStr
          "The weather service is temporarily unavailable. Please try again later.")].

Definition handler (w : World) (env : Env) (req : Request) : M unit :=
  res_setHeader "Access-Control-Allow-Origin" "https://bshs-es.vercel.app" ;;
  res_setHeader "Access-Control-Allow-Methods" "GET, OPTIONS" ;;
  res_setHeader "Access-Control-Allow-Headers" "Content-Type" ;;
  if String.eqb (method req) "OPTIONS" then
    res_status 200 ;; res_end
  else if negb (String.eqb (method req) "GET") then
    res_status 405 ;; res_json method_not_allowed
  else
    let apiKey := WEATHER_API_KEY env in
    if negb (truthy apiKey) then
      console_error [LStr "WEATHER_API_KEY environment variable not set"] ;;
      res_status 500 ;; res_json not_configured
    else
      try_catch
        (weatherResponse <-
           fetch w (forecast_url apiKey)
             [("User-Agent", "BSHS-Weather-Service/1.0")] ;;
         if negb (ok weatherResponse) then
           errorText <- response_text weatherResponse ;;
           console_error [LStr "Weather API error:";
                          LNum (status weatherResponse); LStr errorText] ;;
           res_status (status weatherResponse) ;;
           res_json (upstream_error (status weatherResponse))
         else
           data <- response_json weatherResponse ;;
           res_setHeader "Cache-Control"
             "public, s-maxage=300, stale-while-revalidate=600" ;;
           res_status 200 ;; res_json (Data data))
        (fun error =>
           console_error [LStr "Weather proxy error:";
                          LObj [("message", message error);
                                ("stack", stack error);
                                ("timestamp", now_iso w)]] ;;
           res_status 500 ;; res_json unavailable).

(** A fresh response object: no header, status 200, nothing sent. *)
Definition fresh : State :=
  {| res := {| headers := ∅; statusCode := 200; sent := None |};
     log := []; calls := [] |}.

(** One invocation: the final state, and whether an error escaped. *)
Definition invoke (w : World) (env : Env) (req : Request)
  : (Error + unit) * State :=
  handler w env req fresh.

Definition run (w : World) (env : Env) (req : Request) : State :=
  snd (invoke w env req).

(** The one outbound call the handler can make. *)
Definition upstream_call (apiKey : option string) : Call :=
  {| url := forecast_url apiKey;
     call_headers := [("User-Agent", "BSHS-Weather-Service/1.0")] |}.

(** The three headers written before any branching. *)
Definition cors_headers : gmap string string :=
  <["Access-Control-Allow-Headers" := "Content-Type"]>
    (<["Access-Control-Allow-Methods" := "GET, OPTIONS"]>
       (<["Access-Control-Allow-Origin" := "https://bshs-es.vercel.app"]> ∅)).

Definition cache_control : string :=
  "public, s-maxage=300, stale-while-revalidate=600".

(** The settlements of the outbound call that end in the catch block: the
    fetch rejects, reading the body rejects, or a 2xx body does not
    parse. *)
Inductive throws : FetchResult -> Error -> Prop :=
| th_fetch (e : Error) : throws (Rejects e) e
| th_body (r : Response) (e : Error) :
    body_read r = BodyFails e -> throws (Resolves r) e
| th_parse (r : Response) (t : string) (e : Error) :
    ok r = true -> body_read r = BodyText t -> JSON_parse t = inl e ->
    throws (Resolves r) e.

(** Two settlements that differ at most in what must stay on the server:
    the error objects, and the text of a non-2xx body. *)
Inductive same_public : FetchResult -> FetchResult -> Prop :=
| sp_same (o : FetchResult) : same_public o o
| sp_throws (o1 o2 : FetchResult) (e1 e2 : Error) :
    throws o1 e1 -> throws o2 e2 -> same_public o1 o2
| sp_error_text (code : N) (t1 t2 : string) :
    ok (mkResponse code (BodyText t1)) = false ->
    same_public (Resolves (mkResponse code (BodyText t1)))
                (Resolves (mkResponse code (BodyText t2))).

(** The state the catch block leaves behind. *)
Definition caught (w : World) (env : Env) (e : Error) : State :=
  {| res := {| headers := cors_headers; statusCode := 500;
               sent := Some unavailable |};
     log := [[LStr "Weather proxy error:";
              LObj [("message", message e); ("stack", stack e);
                    ("timestamp", now_iso w)]]];
     calls := [upstream_call (WEATHER_API_KEY env)] |}.

(** The bodies the handler can send: nothing, the relayed data, or one of
    four objects built from literals and the status code alone. *)
Definition generic_body (st : State) : Prop :=
  sent (res st) = Some Empty \/
  (exists v, sent (res st) = Some (Data v)) \/
  sent (res st) = Some method_not_allowed \/
  sent (res st) = Some not_configured \/
  sent (res st) = Some (upstream_error (statusCode (res st))) \/
  sent (res st) = Some unavailable.

(** The bytes of the response body the client receives. *)
Definition wire (p : Payload) : string :=
  match p with
  | Empty => EmptyString
  | Obj fs => json_of_fields fs
  | Data v => JSON_stringify v
  end.

Definition body_bytes (s : State) : option string :=
  option_map wire (sent (res s)).

End Handler.

(** *** A reference runtime

    ECMAScript's JSON restricted to integer numbers and to strings without
    escape sequences: white space between tokens is accepted and dropped,
    members keep their order, and the serializer writes no white space.
    Texts using a fraction, an exponent or an escape are outside the
    fragment and are reported as syntax errors. *)

Module Fragment.

#[warnings="-register-all"]
Inductive json :=
| JNull
| JBool (b : bool)
| JNum (z : Z)
| JStr (s : string)
| JArr (items : list json)
| JObj (members : list (string * json)).

Definition is_ws (c : ascii) : bool :=
  let n := N_of_ascii c in
  ((n =? 32) || (n =? 9) || (n =? 10) || (n =? 13))%N.

Fixpoint skip_ws (s : string) : string :=
  match s with
  | String c s' => if is_ws c then skip_ws s' else s
  | EmptyString => s
  end.

Definition is_digit (c : ascii) : bool :=
  let n := N_of_ascii c in ((48 <=? n) && (n <=? 57))%N.

Fixpoint take_digits (acc : N) (s : string) : N * string :=
  match s with
  | String c s' =>
      if is_digit c then take_digits (10 * acc + (N_of_ascii c - 48)) s'
      else (acc, s)
  | EmptyString => (acc, s)
  end.

(** After the digits of an integer: a fraction or an exponent is outside
    the fragment. *)
Definition ends_integer (s : string) : bool :=
  match s with
  | String c _ => negb (existsb (Ascii.eqb c) ["."; "e"; "E"]%char)
  | EmptyString => true
  end.

(** [0], or a non-zero digit followed by digits. *)
Definition parse_nat (s : string) : option (N * string) :=
  match s with
  | String c s' =>
      if Ascii.eqb c "0" then
        match s' with
        | String d _ => if is_digit d then None else
                          if ends_integer s' then Some (0%N, s') else None
        | EmptyString => Some (0%N, s')
        end
      else if is_digit c then
        let '(n, r) := take_digits 0 s in
        if ends_integer r then Some (n, r) else None
      else None
  | EmptyString => None
  end.

(** The characters of a string up to its closing quote. *)
Fixpoint parse_chars (s : string) : option (string * string) :=
  match s with
  | String c s' =>
      if Ascii.eqb c dquote then Some (EmptyString, s')
      else if Ascii.eqb c backslash then None
      else if (N_of_ascii c <? 32)%N then None
      else
        match parse_chars s' with
        | Some (t, r) => Some (String c t, r)
        | None => None
        end
  | EmptyString => None
  end.

Definition expect (lit : string) (s : string) : option string :=
  if String.prefix lit s
  then Some (String.substring (String.length lit)
               (String.length s - String.length lit) s)
  else None.

Fixpoint parse_value (fuel : nat) (s : string) : option (json * string) :=
  match fuel with
  | O => None
  | S fuel =>
      match skip_ws s with
      | EmptyString => None
      | String c rest =>
          if Ascii.eqb c "n" then
            option_map (pair JNull) (expect "ull" rest)
          else if Ascii.eqb c "t" then
            option_map (pair (JBool true)) (expect "rue" rest)
          else if Ascii.eqb c "f" then
            option_map (pair (JBool false)) (expect "alse" rest)
          else if Ascii.eqb c dquote then
            match parse_chars rest with
            | Some (t, r) => Some (JStr t, r)
            | None => None
            end
          else if Ascii.eqb c "-" then
            match parse_nat rest with
            | Some (n, r) => Some (JNum (- Z.of_N n), r)
            | None => None
            end
          else if Ascii.eqb c "[" then
            match skip_ws rest with
            | String "]" r => Some (JArr [], r)
            | _ =>
                match parse_elements fuel rest with
                | Some (vs, r) => Some (JArr vs, r)
                | None => None
                end
            end
          else if Ascii.eqb c "{" then
            match skip_ws rest with
            | String "}" r => Some (JObj [], r)
            | _ =>
                match parse_members fuel rest with
                | Some (ms, r) => Some (JObj ms, r)
                | None => None
                end
            end
          else
            match parse_nat (String c rest) with
            | Some (n, r) => Some (JNum (Z.of_N n), r)
            | None => None
            end
      end
  end
with parse_elements (fuel : nat) (s : string) : option (list json * string) :=
  match fuel with
  | O => None
  | S fuel =>
      match parse_value fuel s with
      | None => None
      | Some (v, r) =>
          match skip_ws r with
          | String "," r' =>
              match parse_elements fuel r' with
              | Some (vs, r'') => Some (v :: vs, r'')
              | None => None
              end
          | String "]" r' => Some ([v], r')
          | _ => None
          end
      end
  end
with parse_members (fuel : nat) (s : string)
  : option (list (string * json) * string) :=
  match fuel with
  | O => None
  | S fuel =>
      match skip_ws s with
      | String c r0 =>
          if negb (Ascii.eqb c dquote) then None else
          match parse_chars r0 with
          | None => None
          | Some (k, r1) =>
              match skip_ws r1 with
              | String ":" r2 =>
                  match parse_value fuel r2 with
                  | None => None
                  | Some (v, r3) =>
                      match skip_ws r3 with
                      | String "," r4 =>
                          match parse_members fuel r4 with
                          | Some (ms, r5) => Some ((k, v) :: ms, r5)
                          | None => None
                          end
                      | String "}" r4 => Some ([(k, v)], r4)
                      | _ => None
                      end
                  end
              | _ => None
              end
          end
      | EmptyString => None
      end
  end.

Definition syntax_error : Error :=
  {| message := "Unexpected token in JSON";
     stack := "SyntaxError: Unexpected token in JSON" |}.

Definition parse (text : string) : Error + json :=
  match parse_value (2 * String.length text + 2) text with
  | Some (v, r) =>
      match skip_ws r with
      | EmptyString => inr v
      | String _ _ => inl syntax_error
      end
  | None => inl syntax_error
  end.

Definition decimal_of_Z (z : Z) : string :=
  NilEmpty.string_of_int (Z.to_int z).

Fixpoint stringify (v : json) : string :=
  match v with
  | JNull => "null"
  | JBool true => "true"
  | JBool false => "false"
  | JNum z => decimal_of_Z z
  | JStr s => json_quote s
  | JArr items => "[" ++ json_join (map stringify items) ++ "]"
  | JObj members =>
      "{" ++ json_join
               (map (fun kv => json_quote (fst kv) ++ ":" ++ stringify (snd kv))
                    members)
          ++ "}"
  end.

Definition runtime : Runtime :=
  {| JSValue := json; JSON_parse := parse; JSON_stringify := stringify |}.

End Fragment.

(** *** Concrete surroundings used to exercise the handler *)

Module Scenario.

Definition noon : string := "2025-10-19T04:00:00.000Z".

(** A network that settles every call the same way. *)
Definition world (o : FetchResult) : World :=
  {| fetch_oracle := fun _ => o; now_iso := noon |}.

Definition configured : Env := {| WEATHER_API_KEY := Some "s3cr3t" |}.
Definition other_secret : Env := {| WEATHER_API_KEY := Some "0th3r" |}.
Definition unconfigured : Env := {| WEATHER_API_KEY := None |}.
Definition blank : Env := {| WEATHER_API_KEY := Some EmptyString |}.

Definition get : Request := {| method := "GET" |}.
Definition options : Request := {| method := "OPTIONS" |}.
Definition post : Request := {| method := "POST" |}.

Definition network_down : Error :=
  {| message := "fetch failed";
     stack := "TypeError: fetch failed at node:internal/deps/undici" |}.

(** A forecast body as a provider may write it, with a space after each
    colon. *)
Definition forecast_text : string :=
  "{" ++ json_quote "current" ++ ": {" ++ json_quote "temp_c" ++ ": 27, "
  ++ json_quote "condition" ++ ": {" ++ json_quote "text" ++ ": "
  ++ json_quote "Partly cloudy" ++ "}}}".

Definition forecast_value : Fragment.json :=
  Fragment.JObj
    [("current",
      Fragment.JObj
        [("temp_c", Fragment.JNum 27);
         ("condition",
          Fragment.JObj [("text", Fragment.JStr "Partly cloudy")])])].

Definition forecast : Response :=
  {| status := 200; body_read := BodyText forecast_text |}.

Definition forbidden : Response :=
  {| status := 403; body_read := BodyText "API key has been disabled." |}.

Definition garbled : Response :=
  {| status := 200; body_read := BodyText "<html>Bad gateway</html>" |}.

(** A 2xx answer other than 200. *)
Definition partial_content : Response :=
  {| status := 206; body_read := BodyText forecast_text |}.

End Scenario.

End Proxy.

(** ** The data-driven condition lookup proposed in CURRENT_FLAWS.md *)

Module Conditions.
Import JS Display.

(** One value of the [weatherConditions] object. *)
Record Config := mkConfig {
  cfg_icon : string;
  cfg_keywords : list string;
  cfg_template : string -> bool -> string
}.

(** [config.keywords.some(keyword => conditionLower.includes(keyword))]. *)
Definition matches (conditionLower : string) (config : Config) : bool :=
  existsb (fun keyword => includes conditionLower keyword)
          (cfg_keywords config).

(** The [for ... of Object.entries(weatherConditions)] loop, with the
    [return defaultWeatherInfo] that follows it. *)
Fixpoint lookup (entries : list (string * Config))
    (defaultWeatherInfo : View) (condition conditionLower day : string)
    (isWeekend : bool) : View :=
  match entries with
  | [] => defaultWeatherInfo
  | (_, config) :: rest =>
      if matches conditionLower config then
        {| icon := cfg_icon config;
           statusText := condition;
           suspensionInfo := cfg_template config day isWeekend |}
      else lookup rest defaultWeatherInfo condition conditionLower day
                  isWeekend
  end.

(** [getWeatherInfo(condition, day, isWeekend)]; the two globals it reads,
    the entries of [weatherConditions] in their order and
    [defaultWeatherInfo], are its first two arguments. *)
Definition getWeatherInfo (entries : list (string * Config))
    (defaultWeatherInfo : View) (condition day : string) (isWeekend : bool)
  : View :=
  let conditionLower := toLowerCase condition in
  lookup entries defaultWeatherInfo condition conditionLower day isWeekend.

(** The two entries the report writes out; the templates end in the
    report's own ellipsis. *)
Definition cloudy : Config :=
  {| cfg_icon := "☁️";
     cfg_keywords := ["cloudy"; "overcast"];
     cfg_template := fun day _ =>
       "<strong>☁️ Cloudy Weather (" ++ day ++ "):</strong>..." |}.

Definition partlyCloudy : Config :=
  {| cfg_icon := "⛅";
     cfg_keywords := ["partly"; "partly cloudy"];
     cfg_template := fun day _ =>
       "<strong>⛅ Partly Cloudy (" ++ day ++ "):</strong>..." |}.

Definition shown : list (string * Config) :=
  [("cloudy", cloudy); ("partlyCloudy", partlyCloudy)].

(** [partlyCloudy] with its second keyword removed. *)
Definition partlyOnly : Config :=
  {| cfg_icon := cfg_icon partlyCloudy;
     cfg_keywords := ["partly"];
     cfg_template := cfg_template partlyCloudy |}.

End Conditions.

(** ** The retry helper proposed in CURRENT_FLAWS.md *)

Module Retry.
Import Proxy.

(** What the [catch] clause of the loop can receive: the rejection of
    [fetch], or the [Error] built from a response that is not ok. *)
Inductive Thrown :=
| FetchRejected (e : Error)
| HttpError (code : N).

(** [error.message] of a caught value. *)
Definition thrown_message (t : Thrown) : string :=
  match t with
  | FetchRejected e => message e
  | HttpError code => "HTTP " ++ decimal_of_N code
  end.

(** What the helper does to the outside, in order. *)
Inductive Event :=
| Fetched (url : string)
| Slept (ms : Z).

(** How a call of the helper ends: a response, [undefined] when the loop
    runs out, or a rethrown error. *)
Inductive Outcome :=
| Returned (r : Response)
| ReturnedUndefined
| Threw (t : Thrown).

(** The [try] block on one settlement of [fetch]: the response it
    returns, or the value it throws. *)
Definition attempt (o : FetchResult) : Response + Thrown :=
  match o with
  | Rejects e => inr (FetchRejected e)
  | Resolves r => if ok r then inl r else inr (HttpError (status r))
  end.

(** The [for] loop from iteration [i] on; [net k] is how the [k]-th call
    of [fetch] settles.  [None] only when [fuel] runs out. *)
Fixpoint loop (net : nat -> FetchResult) (url : string)
    (maxRetries delay : Z) (fuel : nat) (i : nat) (trace : list Event)
  : option (Outcome * list Event) :=
  match fuel with
  | O => None
  | S fuel =>
      if (Z.of_nat i <? maxRetries)%Z then
        let trace := (trace ++ [Fetched url])%list in
        match attempt (net i) with
        | inl response => Some (Returned response, trace)
        | inr error =>
            if (Z.of_nat i =? maxRetries - 1)%Z then Some (Threw error, trace)
            else
              loop net url maxRetries delay fuel (S i)
                   (trace ++ [Slept (delay * 2 ^ Z.of_nat i)%Z])%list
        end
      else Some (ReturnedUndefined, trace)
  end.

Definition fetchWithRetry (net : nat -> FetchResult) (url : string)
    (maxRetries delay : Z) : option (Outcome * list Event) :=
  loop net url maxRetries delay (S (Z.to_nat maxRetries)) 0 [].

(** The defaults of the two optional parameters. *)
Definition default_maxRetries : Z := 3%Z.
Definition default_delay : Z := 1000%Z.

(** [j] failed attempts, each followed by its wait. *)
Fixpoint backoff (url : string) (delay : Z) (from j : nat) : list Event :=
  match j with
  | O => []
  | S j' =>
      Fetched url :: Slept (delay * 2 ^ Z.of_nat from)%Z
        :: backoff url delay (S from) j'
  end.

Fixpoint fetches (trace : list Event) : nat :=
  match trace with
  | [] => O
  | Fetched _ :: rest => S (fetches rest)
  | Slept _ :: rest => fetches rest
  end.

Fixpoint slept (trace : list Event) : Z :=
  match trace with
  | [] => 0%Z
  | Slept ms :: rest => (ms + slept rest)%Z
  | Fetched _ :: rest => slept rest
  end.

(** An attempt that ends in the [catch] clause. *)
Definition failing (net : nat -> FetchResult) (k : nat) : Prop :=
  exists t, attempt (net k) = inr t.

(** Two networks: one that fails twice and then answers, one that is
    down. *)
Definition flaky (k : nat) : FetchResult :=
  match k with
  | 0%nat => Rejects Scenario.network_down
  | 1%nat => Resolves {| status := 503; body_read := BodyText "busy" |}
  | _ => Resolves Scenario.forecast
  end.

Definition down (k : nat) : FetchResult := Rejects Scenario.network_down.

End Retry.

(** ** The interval management proposed in CURRENT_FLAWS.md *)

Module Intervals.

(** The two functions the page runs on a timer. *)
Inductive Callback := updateWeatherInfo | initializeAll.

Record Timer := mkTimer { callback : Callback; period : N }.

(** The part of the page the snippet touches: the browser's running
    intervals and the handle it will hand out next, the two [let]
    variables, [document.hidden], and the direct calls made so far. *)
Record Page := mkPage {
  next_handle : N;
  active : gmap N Timer;
  weatherInterval : option N;
  reminderInterval : option N;
  hidden : bool;
  invoked : list Callback
}.

(** [setInterval(cb, ms)]: the interval starts and its handle is
    returned. *)
Definition setInterval (cb : Callback) (ms : N) (p : Page) : N * Page :=
  (next_handle p,
   {| next_handle := next_handle p + 1;
      active := <[next_handle p := mkTimer cb ms]> (active p);
      weatherInterval := weatherInterval p;
      reminderInterval := reminderInterval p;
      hidden := hidden p;
      invoked := invoked p |}).

(** [clearInterval(handle)]: nothing happens for a handle that is not
    running. *)
Definition clearInterval (h : N) (p : Page) : Page :=
  {| next_handle := next_handle p;
     active := delete h (active p);
     weatherInterval := weatherInterval p;
     reminderInterval := reminderInterval p;
     hidden := hidden p;
     invoked := invoked p |}.

Definition set_weatherInterval (h : N) (p : Page) : Page :=
  {| next_handle := next_handle p; active := active p;
     weatherInterval := Some h;
     reminderInterval := reminderInterval p;
     hidden := hidden p; invoked := invoked p |}.

Definition set_reminderInterval (h : N) (p : Page) : Page :=
  {| next_handle := next_handle p; active := active p;
     weatherInterval := weatherInterval p;
     reminderInterval := Some h;
     hidden := hidden p; invoked := invoked p |}.

Definition set_hidden (b : bool) (p : Page) : Page :=
  {| next_handle := next_handle p; active := active p;
     weatherInterval := weatherInterval p;
     reminderInterval := reminderInterval p;
     hidden := b; invoked := invoked p |}.

Definition call (cb : Callback) (p : Page) : Page :=
  {| next_handle := next_handle p; active := active p;
     weatherInterval := weatherInterval p;
     reminderInterval := reminderInterval p;
     hidden := hidden p; invoked := invoked p ++ [cb] |}.

Definition startIntervals (p : Page) : Page :=
  let '(h, p) := setInterval updateWeatherInfo 600000 p in
  let p := set_weatherInterval h p in
  let '(h, p) := setInterval initializeAll 3600000 p in
  set_reminderInterval h p.

(** [if (handle) clearInterval(handle)]: an unset variable and the number
    zero are falsy. *)
Definition clear_if_set (handle : option N) (p : Page) : Page :=
  match handle with
  | Some h => if (h =? 0)%N then p else clearInterval h p
  | None => p
  end.

Definition stopIntervals (p : Page) : Page :=
  let p := clear_if_set (weatherInterval p) p in
  clear_if_set (reminderInterval p) p.

(** The [visibilitychange] listener. *)
Definition onVisibilityChange (p : Page) : Page :=
  if hidden p then stopIntervals p
  else call initializeAll (call updateWeatherInfo (startIntervals p)).

(** The browser changes [document.hidden] and fires the event. *)
Definition visibilitychange (h : bool) (p : Page) : Page :=
  onVisibilityChange (set_hidden h p).

(** The script runs once at load: the listener is registered and
    [startIntervals()] is called, whether or not the page is visible. *)
Definition load (hidden0 : bool) : Page :=
  startIntervals
    {| next_handle := 1; active := ∅;
       weatherInterval := None; reminderInterval := None;
       hidden := hidden0; invoked := [] |}.

Definition after (events : list bool) (p : Page) : Page :=
  fold_left (fun p h => visibilitychange h p) events p.

(** A sequence of events each of which changes the visibility. *)
Fixpoint alternates (h : bool) (events : list bool) : Prop :=
  match events with
  | [] => True
  | e :: rest => e = negb h /\ alternates e rest
  end.

(** Exactly the two intervals behind the two variables are running. *)
Definition one_pair (p : Page) : Prop :=
  exists w r,
    weatherInterval p = Some w /\ reminderInterval p = Some r /\ w <> r /\
    active p = <[r := mkTimer initializeAll 3600000]>
                 {[w := mkTimer updateWeatherInfo 600000]}.

(** The invariant behind [one_pair]: handles are positive, and the page
    runs the pair when visible and nothing when hidden. *)
Definition steady (p : Page) : Prop :=
  (0 < next_handle p)%N /\
  if hidden p then active p = ∅
  else exists w r,
    weatherInterval p = Some w /\ reminderInterval p = Some r /\
    w <> r /\ w <> 0%N /\ r <> 0%N /\
    active p = <[r := mkTimer initializeAll 3600000]>
                 {[w := mkTimer updateWeatherInfo 600000]}.

(** No variable holds a handle below [n], and every later handle is at
    least [n]. *)
Definition handles_from (n : N) (p : Page) : Prop :=
  (n <= next_handle p)%N /\
  (forall h, weatherInterval p = Some h -> (n <= h)%N) /\
  (forall h, reminderInterval p = Some h -> (n <= h)%N).

End Intervals.

(** ** The in-flight guard proposed in CURRENT_FLAWS.md *)

Module Debounce.

(** The flag, the invocations that are inside the [try] block waiting for
    the network, and counts of the invocations that entered it and of
    those that returned at the guard. *)
Record GuardState := mkGuardState {
  isUpdating : bool;
  in_flight : nat;
  entered : nat;
  skipped : nat
}.

(** What can happen: [updateWeatherInfo()] is invoked (by the timer or
    directly), or the [try] block of an invocation in flight ends,
    normally or by throwing. *)
Inductive GuardEvent := Invoke | Settle.

(** One event.  [Invoke] runs the function up to its first suspension;
    [Settle] runs the [finally] clause, and cannot happen when nothing is
    in flight. *)
Definition step (ev : GuardEvent) (s : GuardState) : option GuardState :=
  match ev with
  | Invoke =>
      if isUpdating s then
        Some {| isUpdating := isUpdating s; in_flight := in_flight s;
                entered := entered s; skipped := S (skipped s) |}
      else
        Some {| isUpdating := true; in_flight := S (in_flight s);
                entered := S (entered s); skipped := skipped s |}
  | Settle =>
      match in_flight s with
      | O => None
      | S n =>
          Some {| isUpdating := false; in_flight := n;
                  entered := entered s; skipped := skipped s |}
      end
  end.

Fixpoint replay (events : list GuardEvent) (s : GuardState) : option GuardState :=
  match events with
  | [] => Some s
  | ev :: rest =>
      match step ev s with
      | Some s' => replay rest s'
      | None => None
      end
  end.

(** [let isUpdating = false;] and nothing running. *)
Definition initial : GuardState :=
  {| isUpdating := false; in_flight := 0; entered := 0; skipped := 0 |}.

Fixpoint invocations (events : list GuardEvent) : nat :=
  match events with
  | [] => 0
  | Invoke :: rest => S (invocations rest)
  | Settle :: rest => invocations rest
  end.

(** The flag is set exactly while one invocation is in flight. *)
Definition guarded (s : GuardState) : Prop :=
  (isUpdating s = true /\ in_flight s = 1%nat) \/
  (isUpdating s = false /\ in_flight s = 0%nat).

End Debounce.

(** ** Facts about the string primitives *)

Module JSFacts.
Import JS.

Lemma append_nil (b : string) : EmptyString ++ b = b.
Proof. reflexivity. Qed.

Lemma append_cons (c : ascii) (a b : string) :
  String c a ++ b = String c (a ++ b).
Proof. reflexivity. Qed.

Lemma append_assoc (a b c : string) : (a ++ b) ++ c = a ++ b ++ c.
Proof.
  induction a as [|x a IH]; [reflexivity|].
  now rewrite !append_cons, IH.
Qed.

Lemma prefix_app (p s : string) :
  String.prefix p s = true <-> exists b, s = p ++ b.
Proof.
  revert s. induction p as [|c p IH]; intros [|d s]; simpl.
  - split; [now exists EmptyString | reflexivity].
  - split; [now exists (String d s) | reflexivity].
  - split; [discriminate | intros [b Hb]; discriminate].
  - destruct (Ascii.ascii_dec c d) as [->|Hne].
    + rewrite IH. split; intros [b Hb]; exists b;
        rewrite append_cons in *; congruence.
    + split; [discriminate|].
      intros [b Hb]. rewrite append_cons in Hb. congruence.
Qed.

Lemma includes_nil (p : string) :
  includes EmptyString p = String.prefix p EmptyString.
Proof. unfold includes. apply orb_false_r. Qed.

Lemma includes_cons (c : ascii) (s p : string) :
  includes (String c s) p = String.prefix p (String c s) || includes s p.
Proof. reflexivity. Qed.

Lemma includes_spec (s p : string) :
  includes s p = true <-> exists a b, s = a ++ p ++ b.
Proof.
  induction s as [|c s IH].
  - rewrite includes_nil, prefix_app. split.
    + intros [b Hb]. now exists EmptyString, b.
    + intros [[|x a] [b Hb]]; [now exists b | discriminate].
  - rewrite includes_cons, orb_true_iff, prefix_app, IH. split.
    + intros [[b Hb] | (a & b & Hab)].
      * now exists EmptyString, b.
      * exists (String c a), b. now rewrite append_cons, Hab.
    + intros [[|x a] [b Hb]].
      * left. now exists b.
      * right. exists a, b. rewrite append_cons in Hb. congruence.
Qed.

(** A text that includes [u ++ v] includes [v]. *)
Lemma includes_suffix_of_needle (s u v : string) :
  includes s (u ++ v) = true -> includes s v = true.
Proof.
  rewrite !includes_spec. intros (a & b & ->).
  exists (a ++ u), b. now rewrite !append_assoc.
Qed.

End JSFacts.

(** ** The keyword scan on "partly cloudy" *)

Module DisplayFacts.
Import JS JSFacts Display.

(** First match in declared order: once the first test succeeds the later
    ones are not consulted. *)
Lemma scan_first_match (condition cl : string) (v : View) :
  includes cl "cloudy" = true ->
  scan condition cl v =
  {| icon := icon_cloudy; statusText := condition; suspensionInfo := "..." |}.
Proof. intros H. unfold scan. now rewrite H. Qed.

(** Every lower-cased text containing "partly cloudy" is caught by the
    first test, the one for "cloudy". *)
Lemma scan_partly_cloudy_takes_cloudy (condition cl : string) (v : View) :
  includes cl "partly cloudy" = true ->
  icon (scan condition cl v) = icon_cloudy.
Proof.
  intros H. rewrite scan_first_match; [reflexivity|].
  now apply (includes_suffix_of_needle cl "partly " "cloudy").
Qed.

(** The second branch is reached only by texts with "partly" and without
    "cloudy". *)
Lemma scan_partly_iff (condition cl : string) (v : View) :
  icon v <> icon_partly ->
  icon (scan condition cl v) = icon_partly <->
  includes cl "cloudy" = false /\ includes cl "partly" = true.
Proof.
  intros Hv. unfold scan.
  destruct (includes cl "cloudy"); simpl.
  - split; [discriminate | intros [? _]; discriminate].
  - destruct (includes cl "partly"); simpl.
    + split; [now split | reflexivity].
    + split; [intros; contradiction | intros [_ ?]; discriminate].
Qed.

(** C1 (evaluation at the failing input). The provider's condition text
    "Partly cloudy" contains "partly cloudy" after lower-casing, and the
    excerpted scan gives it the "cloudy" icon, not the "partly" one: the
    "cloudy" test is declared first and shadows the "partly" branch. *)
Theorem select_partly_cloudy_is_cloudy :
  includes (toLowerCase "Partly cloudy") "partly cloudy" = true /\
  icon (select "Partly cloudy" (mkView EmptyString EmptyString EmptyString))
    = icon_cloudy /\
  icon (select "Partly cloudy" (mkView EmptyString EmptyString EmptyString))
    <> icon_partly.
Proof.
  split; [reflexivity|]. split; [reflexivity|]. discriminate.
Qed.

End DisplayFacts.

(** ** The proxy handler, path by path *)

Module ProxyFacts.
Import JS Proxy.

Ltac run_handler :=
  cbv [run invoke handler bind ret throw try_catch update_res res_setHeader
       res_status res_json res_end console_error fetch response_text
       response_json fresh res log calls headers statusCode sent snd fst
       negb app].

Section Paths.
Context {RT : Runtime}.
Implicit Types (w : World) (env : Env) (req : Request).

Lemma method_cases req :
  method req = "OPTIONS" \/
  (method req <> "OPTIONS" /\ method req <> "GET") \/
  method req = "GET".
Proof.
  destruct (String.eqb_spec (method req) "OPTIONS"); [now left | right].
  destruct (String.eqb_spec (method req) "GET"); [now right | now left].
Qed.

Lemma run_options w env req :
  method req = "OPTIONS" ->
  run w env req =
  {| res := {| headers := cors_headers; statusCode := 200;
               sent := Some Empty |};
     log := []; calls := [] |}.
Proof. intros Hm. run_handler. rewrite Hm. reflexivity. Qed.

Lemma run_other_method w env req :
  method req <> "OPTIONS" -> method req <> "GET" ->
  run w env req =
  {| res := {| headers := cors_headers; statusCode := 405;
               sent := Some method_not_allowed |};
     log := []; calls := [] |}.
Proof.
  intros Ho Hg. run_handler.
  destruct (String.eqb_spec (method req) "OPTIONS"); [contradiction|].
  destruct (String.eqb_spec (method req) "GET"); [contradiction|].
  reflexivity.
Qed.

Lemma run_no_key w env req :
  method req = "GET" -> truthy (WEATHER_API_KEY env) = false ->
  run w env req =
  {| res := {| headers := cors_headers; statusCode := 500;
               sent := Some not_configured |};
     log := [[LStr "WEATHER_API_KEY environment variable not set"]];
     calls := [] |}.
Proof. intros Hm Hk. run_handler. rewrite Hm, Hk. reflexivity. Qed.

Lemma run_fetch_rejects w env req e :
  method req = "GET" -> truthy (WEATHER_API_KEY env) = true ->
  fetch_oracle w (upstream_call (WEATHER_API_KEY env)) = Rejects e ->
  run w env req = caught w env e.
Proof.
  intros Hm Hk Hf. run_handler. rewrite Hm, Hk.
  fold (upstream_call (WEATHER_API_KEY env)). rewrite Hf. reflexivity.
Qed.

Lemma run_body_fails w env req r e :
  method req = "GET" -> truthy (WEATHER_API_KEY env) = true ->
  fetch_oracle w (upstream_call (WEATHER_API_KEY env)) = Resolves r ->
  body_read r = BodyFails e ->
  run w env req = caught w env e.
Proof.
  intros Hm Hk Hf Hb. run_handler. rewrite Hm, Hk.
  fold (upstream_call (WEATHER_API_KEY env)). rewrite Hf.
  destruct (ok r); rewrite Hb; reflexivity.
Qed.

Lemma run_parse_fails w env req r t e :
  method req = "GET" -> truthy (WEATHER_API_KEY env) = true ->
  fetch_oracle w (upstream_call (WEATHER_API_KEY env)) = Resolves r ->
  ok r = true -> body_read r = BodyText t -> JSON_parse t = inl e ->
  run w env req = caught w env e.
Proof.
  intros Hm Hk Hf Hok Hb Hp. run_handler. rewrite Hm, Hk.
  fold (upstream_call (WEATHER_API_KEY env)).
  rewrite Hf, Hok, Hb, Hp. reflexivity.
Qed.

Lemma run_upstream_error w env req r t :
  method req = "GET" -> truthy (WEATHER_API_KEY env) = true ->
  fetch_oracle w (upstream_call (WEATHER_API_KEY env)) = Resolves r ->
  ok r = false -> body_read r = BodyText t ->
  run w env req =
  {| res := {| headers := cors_headers; statusCode := status r;
               sent := Some (upstream_error (status r)) |};
     log := [[LStr "Weather API error:"; LNum (status r); LStr t]];
     calls := [upstream_call (WEATHER_API_KEY env)] |}.
Proof.
  intros Hm Hk Hf Hok Hb. run_handler. rewrite Hm, Hk.
  fold (upstream_call (WEATHER_API_KEY env)).
  rewrite Hf, Hok, Hb. reflexivity.
Qed.

Lemma run_success w env req r t v :
  method req = "GET" -> truthy (WEATHER_API_KEY env) = true ->
  fetch_oracle w (upstream_call (WEATHER_API_KEY env)) = Resolves r ->
  ok r = true -> body_read r = BodyText t -> JSON_parse t = inr v ->
  run w env req =
  {| res := {| headers := <["Cache-Control" := cache_control]> cors_headers;
               statusCode := 200; sent := Some (Data v) |};
     log := [];
     calls := [upstream_call (WEATHER_API_KEY env)] |}.
Proof.
  intros Hm Hk Hf Hok Hb Hp. run_handler. rewrite Hm, Hk.
  fold (upstream_call (WEATHER_API_KEY env)).
  rewrite Hf, Hok, Hb, Hp. reflexivity.
Qed.

(** Every settlement that ends in the catch block leaves the same state,
    up to the logged error. *)
Lemma run_throws w env req e :
  method req = "GET" -> truthy (WEATHER_API_KEY env) = true ->
  throws (fetch_oracle w (upstream_call (WEATHER_API_KEY env))) e ->
  run w env req = caught w env e.
Proof.
  intros Hm Hk Ht. inversion Ht as [e' He | r e' Hb Hr | r t e' Hok Hb Hp Hr];
    subst e'; symmetry in He || symmetry in Hr.
  - now apply run_fetch_rejects.
  - now apply run_body_fails with r.
  - now apply run_parse_fails with r t.
Qed.

(** The three ways the outbound call can end. *)
Lemma fetch_cases (o : FetchResult) :
  (exists e, throws o e) \/
  (exists r t, o = Resolves r /\ ok r = false /\ body_read r = BodyText t) \/
  (exists r t v, o = Resolves r /\ ok r = true /\ body_read r = BodyText t /\
                 JSON_parse t = inr v).
Proof.
  destruct o as [e | r].
  - left. exists e. constructor.
  - destruct (body_read r) as [t | e] eqn:Hb.
    + destruct (ok r) eqn:Hok.
      * destruct (JSON_parse t) as [e | v] eqn:Hp.
        -- left. exists e. now apply th_parse with t.
        -- right; right. now exists r, t, v.
      * right; left. now exists r, t.
    + left. exists e. now apply th_body.
Qed.

(** The headers of every final state: the three CORS headers, plus the
    cache directive on the success path. *)
Lemma run_headers w env req :
  headers (res (run w env req)) = cors_headers \/
  headers (res (run w env req)) = <["Cache-Control" := cache_control]> cors_headers.
Proof.
  destruct (method_cases req) as [Hm | [[Ho Hg] | Hm]].
  - left. now rewrite run_options.
  - left. now rewrite run_other_method.
  - destruct (truthy (WEATHER_API_KEY env)) eqn:Hk.
    + destruct (fetch_cases (fetch_oracle w (upstream_call (WEATHER_API_KEY env))))
        as [[e Ht] | [(r & t & Hf & Hok & Hb) | (r & t & v & Hf & Hok & Hb & Hp)]].
      * left. now rewrite (run_throws w env req e).
      * left. now rewrite (run_upstream_error w env req r t).
      * right. now rewrite (run_success w env req r t v).
    + left. now rewrite run_no_key.
Qed.

(** No error escapes the handler, and every invocation sends a response. *)
Lemma handler_responds w env req :
  fst (invoke w env req) = inr tt /\ sent (res (run w env req)) <> None.
Proof.
  unfold run.
  destruct (method_cases req) as [Hm | [[Ho Hg] | Hm]].
  - run_handler. rewrite Hm. now split.
  - run_handler.
    destruct (String.eqb_spec (method req) "OPTIONS"); [contradiction|].
    destruct (String.eqb_spec (method req) "GET"); [contradiction|].
    now split.
  - run_handler. rewrite Hm.
    change (String.eqb "GET" "OPTIONS") with false.
    change (String.eqb "GET" "GET") with true. cbv iota.
    destruct (truthy (WEATHER_API_KEY env)); [|now split].
    destruct (fetch_oracle w _) as [e | r]; [now split|].
    destruct (ok r), (body_read r) as [t | e]; try now split.
    destruct (JSON_parse t); now split.
Qed.

End Paths.

Section Claims.
Context {RT : Runtime}.
Implicit Types (w : World) (env : Env) (req : Request).

(** C2, as amended. On a GET with the secret configured, when the upstream
    answers 200 and its body parses, the handler answers 200, sends the
    serialization of the parsed value (the same JSON value as upstream,
    written again by the runtime), and sets
    Cache-Control: public, s-maxage=300, stale-while-revalidate=600. *)
Theorem success_relays_parsed_value w env req r t v :
  method req = "GET" ->
  truthy (WEATHER_API_KEY env) = true ->
  fetch_oracle w (upstream_call (WEATHER_API_KEY env)) = Resolves r ->
  status r = 200%N ->
  body_read r = BodyText t ->
  JSON_parse t = inr v ->
  statusCode (res (run w env req)) = 200%N /\
  sent (res (run w env req)) = Some (Data v) /\
  body_bytes (run w env req) = Some (JSON_stringify v) /\
  headers (res (run w env req)) !! "Cache-Control" =
    Some "public, s-maxage=300, stale-while-revalidate=600".
Proof.
  intros Hm Hk Hf Hs Hb Hp.
  assert (Hok : ok r = true) by (unfold ok; now rewrite Hs).
  unfold body_bytes. rewrite (run_success w env req r t v) by assumption.
  cbn [res headers statusCode sent option_map wire].
  do 3 (split; [reflexivity|]). apply lookup_insert_eq.
Qed.

(** C3. A GET that arrives while WEATHER_API_KEY is absent gets status 500
    with the generic "not properly configured" body, and no outbound call
    is made. *)
Theorem missing_secret_500_no_call w env req :
  method req = "GET" ->
  WEATHER_API_KEY env = None ->
  statusCode (res (run w env req)) = 500%N /\
  sent (res (run w env req)) =
    Some (Obj [("error", FStr "Server configuration error");
               ("message",
                FStr "Weather service is not properly configured")]) /\
  calls (run w env req) = [].
Proof.
  intros Hm Hk. rewrite run_no_key by (try rewrite Hk; easy). now repeat split.
Qed.

(** C4. When the upstream answers with a status outside 200-299 (and its
    body text is read), the handler answers with that same status and the
    fixed body [{error, message, status}]: the whole response is
    determined by the status alone, the upstream text goes to the log. *)
Theorem upstream_error_relayed_generic w env req r t :
  method req = "GET" ->
  truthy (WEATHER_API_KEY env) = true ->
  fetch_oracle w (upstream_call (WEATHER_API_KEY env)) = Resolves r ->
  (status r < 200 \/ 299 < status r)%N ->
  body_read r = BodyText t ->
  res (run w env req) =
    {| headers := cors_headers;
       statusCode := status r;
       sent := Some (Obj [("error", FStr "Weather API error");
                          ("message",
                           FStr "Unable to fetch weather data from provider");
                          ("status", FNum (status r))]) |} /\
  log (run w env req) =
    [[LStr "Weather API error:"; LNum (status r); LStr t]].
Proof.
  intros Hm Hk Hf Hs Hb.
  assert (Hok : ok r = false).
  { unfold ok. apply andb_false_iff.
    destruct Hs; [left | right]; now apply N.leb_gt. }
  now rewrite (run_upstream_error w env req r t).
Qed.

(** C5. Two executions with present secrets, whose outbound calls settle
    alike up to error objects and error-body text, send the same response;
    and whatever the configuration, the body sent is empty, the relayed
    data, or one of four objects built from literals and the status code:
    neither the secret, nor a stack trace, nor the upstream error text
    reaches the client. *)
Theorem secret_and_detail_stay_server_side :
  (forall w1 w2 req k1 k2,
     truthy (Some k1) = true -> truthy (Some k2) = true ->
     same_public (fetch_oracle w1 (upstream_call (Some k1)))
                 (fetch_oracle w2 (upstream_call (Some k2))) ->
     res (run w1 (mkEnv (Some k1)) req) = res (run w2 (mkEnv (Some k2)) req))
  /\
  (forall w env req, generic_body (run w env req)).
Proof.
  split.
  - intros w1 w2 req k1 k2 H1 H2 Hsp.
    destruct (method_cases req) as [Hm | [[Ho Hg] | Hm]].
    + now rewrite !run_options.
    + now rewrite !run_other_method.
    + inversion Hsp as [o Ha Hb | o1 o2 e1 e2 Ht1 Ht2 Ha Hb | code t1 t2 Hok Ha Hb].
      * destruct (fetch_cases (fetch_oracle w1 (upstream_call (Some k1))))
          as [[e Ht] | [(r & t & Hf & Hok & Hbr) | (r & t & v & Hf & Hok & Hbr & Hp)]].
        -- rewrite (run_throws w1 (mkEnv (Some k1)) req e) by assumption.
           rewrite (run_throws w2 (mkEnv (Some k2)) req e); [reflexivity | easy | easy |].
           cbn [WEATHER_API_KEY]. now rewrite <- Hb.
        -- rewrite (run_upstream_error w1 (mkEnv (Some k1)) req r t) by assumption.
           rewrite (run_upstream_error w2 (mkEnv (Some k2)) req r t); try easy.
           cbn [WEATHER_API_KEY] in *. congruence.
        -- rewrite (run_success w1 (mkEnv (Some k1)) req r t v) by assumption.
           rewrite (run_success w2 (mkEnv (Some k2)) req r t v); try easy.
           cbn [WEATHER_API_KEY] in *. congruence.
      * rewrite (run_throws w1 (mkEnv (Some k1)) req e1) by assumption.
        now rewrite (run_throws w2 (mkEnv (Some k2)) req e2).
      * rewrite (run_upstream_error w1 (mkEnv (Some k1)) req
                   (mkResponse code (BodyText t1)) t1) by easy.
        now rewrite (run_upstream_error w2 (mkEnv (Some k2)) req
                       (mkResponse code (BodyText t2)) t2).
  - intros w env req. unfold generic_body.
    destruct (method_cases req) as [Hm | [[Ho Hg] | Hm]].
    + left. now rewrite run_options.
    + do 2 right. left. now rewrite run_other_method.
    + destruct (truthy (WEATHER_API_KEY env)) eqn:Hk.
      * destruct (fetch_cases (fetch_oracle w (upstream_call (WEATHER_API_KEY env))))
          as [[e Ht] | [(r & t & Hf & Hok & Hb) | (r & t & v & Hf & Hok & Hb & Hp)]].
        -- do 5 right. now rewrite (run_throws w env req e).
        -- do 4 right. left. now rewrite (run_upstream_error w env req r t).
        -- right. left. exists v. now rewrite (run_success w env req r t v).
      * do 3 right. left. now rewrite run_no_key.
Qed.

(** C6. A request whose method is neither GET nor OPTIONS gets status 405
    with the structured "Method not allowed" body, and no outbound call is
    made. *)
Theorem other_methods_405_no_call w env req :
  method req <> "GET" ->
  method req <> "OPTIONS" ->
  statusCode (res (run w env req)) = 405%N /\
  sent (res (run w env req)) =
    Some (Obj [("error", FStr "Method not allowed");
               ("message", FStr "Only GET requests are supported")]) /\
  calls (run w env req) = [].
Proof.
  intros Hg Ho. rewrite run_other_method by assumption. now repeat split.
Qed.

(** C7. An OPTIONS request gets status 200 with an empty body, whatever
    the configuration: the final state is the one reached with the secret
    absent, nothing is logged and no outbound call is made. *)
Theorem options_200_before_credentials w env req :
  method req = "OPTIONS" ->
  statusCode (res (run w env req)) = 200%N /\
  sent (res (run w env req)) = Some Empty /\
  body_bytes (run w env req) = Some EmptyString /\
  calls (run w env req) = [] /\
  run w env req = run w (mkEnv None) req.
Proof.
  intros Hm. unfold body_bytes. rewrite !run_options by assumption.
  now repeat split.
Qed.

(** C8. When the outbound fetch rejects, or reading the upstream body
    rejects, or a 2xx body does not parse as JSON, the handler answers 500
    with the fixed "temporarily unavailable" body; the error goes to the
    log only. *)
Theorem fetch_or_parse_failure_500 w env req e :
  method req = "GET" ->
  truthy (WEATHER_API_KEY env) = true ->
  throws (fetch_oracle w (upstream_call (WEATHER_API_KEY env))) e ->
  res (run w env req) =
    {| headers := cors_headers;
       statusCode := 500;
       sent := Some (Obj [("error", FStr "Failed to fetch weather data");
                          ("message",
                           FStr "The weather service is temporarily unavailable. Please try again later.")]) |}.
Proof.
  intros Hm Hk Ht. now rewrite (run_throws w env req e).
Qed.

(** C9. With WEATHER_API_KEY set to the empty string a GET ends exactly as
    with the variable absent: status 500, the "not properly configured"
    body, and no outbound call. *)
Theorem empty_secret_is_absent w req :
  method req = "GET" ->
  run w (mkEnv (Some EmptyString)) req = run w (mkEnv None) req /\
  statusCode (res (run w (mkEnv (Some EmptyString)) req)) = 500%N /\
  sent (res (run w (mkEnv (Some EmptyString)) req)) =
    Some (Obj [("error", FStr "Server configuration error");
               ("message",
                FStr "Weather service is not properly configured")]) /\
  log (run w (mkEnv (Some EmptyString)) req) =
    [[LStr "WEATHER_API_KEY environment variable not set"]] /\
  calls (run w (mkEnv (Some EmptyString)) req) = [].
Proof.
  intros Hm. rewrite !run_no_key by easy. now repeat split.
Qed.

(** C10. Every final response carries the three CORS headers with their
    fixed values. *)
Theorem cors_headers_on_every_response w env req :
  headers (res (run w env req)) !! "Access-Control-Allow-Origin" =
    Some "https://bshs-es.vercel.app" /\
  headers (res (run w env req)) !! "Access-Control-Allow-Methods" =
    Some "GET, OPTIONS" /\
  headers (res (run w env req)) !! "Access-Control-Allow-Headers" =
    Some "Content-Type".
Proof.
  assert (Hc : cors_headers !! "Access-Control-Allow-Origin" =
                 Some "https://bshs-es.vercel.app" /\
               cors_headers !! "Access-Control-Allow-Methods" =
                 Some "GET, OPTIONS" /\
               cors_headers !! "Access-Control-Allow-Headers" =
                 Some "Content-Type").
  { unfold cors_headers. split; [|split].
    - rewrite !lookup_insert_ne by discriminate. apply lookup_insert_eq.
    - rewrite lookup_insert_ne by discriminate. apply lookup_insert_eq.
    - apply lookup_insert_eq. }
  destruct (run_headers w env req) as [-> | ->]; [exact Hc|].
  rewrite !lookup_insert_ne by discriminate. exact Hc.
Qed.

(** Whatever the runtime, the success path cannot preserve the upstream
    bytes in general: two different texts that parse to one value are
    answered with one and the same body. *)
Lemma reserialization_forgets_text w1 w2 env req r1 r2 t1 t2 v :
  method req = "GET" ->
  truthy (WEATHER_API_KEY env) = true ->
  fetch_oracle w1 (upstream_call (WEATHER_API_KEY env)) = Resolves r1 ->
  fetch_oracle w2 (upstream_call (WEATHER_API_KEY env)) = Resolves r2 ->
  ok r1 = true -> ok r2 = true ->
  body_read r1 = BodyText t1 -> body_read r2 = BodyText t2 ->
  JSON_parse t1 = inr v -> JSON_parse t2 = inr v ->
  t1 <> t2 ->
  body_bytes (run w1 env req) = body_bytes (run w2 env req) /\
  (body_bytes (run w1 env req) <> Some t1 \/
   body_bytes (run w2 env req) <> Some t2).
Proof.
  intros Hm Hk Hf1 Hf2 Hok1 Hok2 Hb1 Hb2 Hp1 Hp2 Hne.
  unfold body_bytes.
  rewrite (run_success w1 env req r1 t1 v), (run_success w2 env req r2 t2 v)
    by assumption.
  cbn [res sent option_map wire]. split; [reflexivity|].
  destruct (String.eqb_spec (JSON_stringify v) t1) as [-> | Hd].
  - right. congruence.
  - left. congruence.
Qed.

End Claims.

(** *** The theorems at work on concrete requests *)

Module Exercised.
Import Scenario.
#[local] Existing Instance Fragment.runtime.

(** C2, the claim as worded fails: the upstream body below is valid JSON,
    the handler answers 200, and the bytes it sends are not the bytes it
    received (the white space after the colons is gone). *)
Lemma success_body_not_verbatim :
  Fragment.parse forecast_text = inr forecast_value /\
  statusCode (res (run (world (Resolves forecast)) configured get)) = 200%N /\
  body_bytes (run (world (Resolves forecast)) configured get)
    <> Some forecast_text.
Proof.
  split; [reflexivity|]. split; [reflexivity|].
  intros H. vm_compute in H. discriminate H.
Qed.

(** C2 at a forecast answered with 200. *)
Lemma success_relays_parsed_value_witness :
  let st := run (world (Resolves forecast)) configured get in
  (method get = "GET" /\ truthy (WEATHER_API_KEY configured) = true /\
   status forecast = 200%N /\ Fragment.parse forecast_text = inr forecast_value)
  /\
  (statusCode (res st) = 200%N /\
   sent (res st) = Some (Data forecast_value) /\
   body_bytes st = Some (Fragment.stringify forecast_value) /\
   headers (res st) !! "Cache-Control" =
     Some "public, s-maxage=300, stale-while-revalidate=600").
Proof.
  split; [repeat split|].
  apply (success_relays_parsed_value (RT := Fragment.runtime)
           (world (Resolves forecast)) configured get forecast
           forecast_text forecast_value); reflexivity.
Defined.

(** C3 at a GET without the variable. *)
Lemma missing_secret_500_no_call_witness :
  let st := run (world (Resolves forecast)) unconfigured get in
  (method get = "GET" /\ WEATHER_API_KEY unconfigured = None) /\
  (statusCode (res st) = 500%N /\
   sent (res st) = Some not_configured /\
   calls st = []).
Proof.
  split; [repeat split|].
  apply (missing_secret_500_no_call (RT := Fragment.runtime)
           (world (Resolves forecast)) unconfigured get); reflexivity.
Defined.

(** C4 at an upstream 403. *)
Lemma upstream_error_relayed_generic_witness :
  let st := run (world (Resolves forbidden)) configured get in
  (method get = "GET" /\ truthy (WEATHER_API_KEY configured) = true /\
   (299 < status forbidden)%N) /\
  (statusCode (res st) = 403%N /\
   sent (res st) = Some (upstream_error 403) /\
   log st = [[LStr "Weather API error:"; LNum 403;
              LStr "API key has been disabled."]]).
Proof.
  split; [repeat split|].
  destruct (upstream_error_relayed_generic (RT := Fragment.runtime)
              (world (Resolves forbidden)) configured get forbidden
              "API key has been disabled."
              eq_refl eq_refl eq_refl (or_intror eq_refl) eq_refl) as [H1 H2].
  rewrite H1, H2. repeat split.
Defined.

(** C5 at two secrets and two upstream error texts. *)
Lemma secret_and_detail_stay_server_side_witness :
  (truthy (Some "s3cr3t") = true /\ truthy (Some "0th3r") = true) /\
  res (run (world (Resolves forbidden)) configured get) =
  res (run (world (Resolves (mkResponse 403 (BodyText "Forbidden"))))
           other_secret get).
Proof.
  split; [repeat split|].
  apply (proj1 (secret_and_detail_stay_server_side (RT := Fragment.runtime))
           (world (Resolves forbidden))
           (world (Resolves (mkResponse 403 (BodyText "Forbidden"))))
           get "s3cr3t" "0th3r"); [reflexivity | reflexivity |].
  apply sp_error_text. reflexivity.
Defined.

(** C6 at a POST. *)
Lemma other_methods_405_no_call_witness :
  let st := run (world (Rejects network_down)) configured post in
  (method post <> "GET" /\ method post <> "OPTIONS") /\
  (statusCode (res st) = 405%N /\
   sent (res st) = Some method_not_allowed /\
   calls st = []).
Proof.
  split; [split; discriminate|].
  apply (other_methods_405_no_call (RT := Fragment.runtime)
           (world (Rejects network_down)) configured post); discriminate.
Defined.

(** C7 at an OPTIONS request without the variable. *)
Lemma options_200_before_credentials_witness :
  let st := run (world (Rejects network_down)) unconfigured options in
  method options = "OPTIONS" /\
  (statusCode (res st) = 200%N /\
   sent (res st) = Some Empty /\
   body_bytes st = Some EmptyString /\
   calls st = [] /\
   st = run (world (Rejects network_down)) (mkEnv None) options).
Proof.
  split; [reflexivity|].
  apply (options_200_before_credentials (RT := Fragment.runtime)
           (world (Rejects network_down)) unconfigured options); reflexivity.
Defined.

(** C8 at a 200 whose body is not JSON. *)
Lemma fetch_or_parse_failure_500_witness :
  let st := run (world (Resolves garbled)) configured get in
  (method get = "GET" /\ truthy (WEATHER_API_KEY configured) = true /\
   throws (Resolves garbled) Fragment.syntax_error) /\
  (statusCode (res st) = 500%N /\ sent (res st) = Some unavailable).
Proof.
  assert (Ht : throws (Resolves garbled) Fragment.syntax_error)
    by (apply th_parse with "<html>Bad gateway</html>"; reflexivity).
  split; [now repeat split|].
  cbv zeta.
  rewrite (fetch_or_parse_failure_500 (RT := Fragment.runtime)
             (world (Resolves garbled)) configured get
             Fragment.syntax_error eq_refl eq_refl Ht).
  split; reflexivity.
Defined.

(** C9 at a GET with the variable set to the empty string. *)
Lemma empty_secret_is_absent_witness :
  let st := run (world (Resolves forecast)) blank get in
  method get = "GET" /\
  (st = run (world (Resolves forecast)) unconfigured get /\
   statusCode (res st) = 500%N /\
   sent (res st) =
     Some (Obj [("error", FStr "Server configuration error");
                ("message",
                 FStr "Weather service is not properly configured")]) /\
   log st = [[LStr "WEATHER_API_KEY environment variable not set"]] /\
   calls st = []).
Proof.
  split; [reflexivity|].
  apply (empty_secret_is_absent (RT := Fragment.runtime)
           (world (Resolves forecast)) get).
  reflexivity.
Defined.

End Exercised.

End ProxyFacts.

(** ** The keyword chain on every text *)

Module ScanFacts.
Import JS JSFacts Display DisplayFacts.

(** X1. The "cloudy" test comes first and catches every lower-cased text
    that contains "partly cloudy": all three variables get the values of
    the first branch. *)
Theorem cloudy_test_catches_partly_cloudy
    (condition conditionLower : string) (v : View) :
  includes conditionLower "partly cloudy" = true ->
  scan condition conditionLower v =
    {| icon := "☁️"; statusText := condition; suspensionInfo := "..." |}.
Proof.
  intros H. apply scan_first_match.
  now apply (includes_suffix_of_needle conditionLower "partly " "cloudy").
Qed.

(** X1 on the provider's text. *)
Lemma cloudy_test_catches_partly_cloudy_witness :
  includes "partly cloudy" "partly cloudy" = true /\
  scan "Partly cloudy" "partly cloudy"
       (mkView EmptyString EmptyString EmptyString) =
    {| icon := "☁️"; statusText := "Partly cloudy";
       suspensionInfo := "..." |}.
Proof.
  split; [reflexivity|].
  apply (cloudy_test_catches_partly_cloudy "Partly cloudy" "partly cloudy").
  reflexivity.
Defined.

End ScanFacts.

(** ** The data-driven lookup: declared order, default, dead keywords *)

Module ConditionsFacts.
Import JS JSFacts Display Conditions.

Lemma includes_trans (s k k' : string) :
  includes s k = true -> includes k k' = true -> includes s k' = true.
Proof.
  rewrite !includes_spec. intros (a & b & ->) (c & d & ->).
  exists (a ++ c), (d ++ b). now rewrite !append_assoc.
Qed.

Lemma matches_app (cl : string) (ic : string) (tp : string -> bool -> string)
    (ks1 ks2 : list string) :
  matches cl (mkConfig ic (ks1 ++ ks2)%list tp) =
  matches cl (mkConfig ic ks1 tp) || matches cl (mkConfig ic ks2 tp).
Proof. unfold matches. cbn [cfg_keywords]. apply existsb_app. Qed.

Lemma lookup_first (pre post : list (string * Config)) (key : string)
    (config : Config) (dflt : View) (condition cl day : string) (wk : bool) :
  Forall (fun e => matches cl (snd e) = false) pre ->
  matches cl config = true ->
  lookup (pre ++ (key, config) :: post)%list dflt condition cl day wk =
    {| icon := cfg_icon config;
       statusText := condition;
       suspensionInfo := cfg_template config day wk |}.
Proof.
  intros Hpre Hm.
  induction Hpre as [| [k c] pre Hc _ IH]; cbn [lookup app].
  - now rewrite Hm.
  - cbn [snd] in Hc. now rewrite Hc.
Qed.

(** X2. Declared order decides: the result is built from the first entry,
    in the order of [Object.entries], one of whose keywords occurs in the
    lower-cased condition; its status text is the condition as given. *)
Theorem getWeatherInfo_first_match
    (entries pre post : list (string * Config)) (key : string)
    (config : Config) (dflt : View) (condition day : string) (wk : bool) :
  entries = (pre ++ (key, config) :: post)%list ->
  Forall (fun e => matches (toLowerCase condition) (snd e) = false) pre ->
  matches (toLowerCase condition) config = true ->
  getWeatherInfo entries dflt condition day wk =
    {| icon := cfg_icon config;
       statusText := condition;
       suspensionInfo := cfg_template config day wk |}.
Proof.
  intros -> Hpre Hm. unfold getWeatherInfo. now apply lookup_first.
Qed.

(** X3. When no keyword of any entry occurs in the lower-cased condition,
    the result is [defaultWeatherInfo], untouched. *)
Theorem getWeatherInfo_default
    (entries : list (string * Config)) (dflt : View)
    (condition day : string) (wk : bool) :
  Forall (fun e => matches (toLowerCase condition) (snd e) = false) entries ->
  getWeatherInfo entries dflt condition day wk = dflt.
Proof.
  intros H. unfold getWeatherInfo.
  induction H as [| [k c] rest Hc _ IH]; cbn [lookup]; [reflexivity|].
  cbn [snd] in Hc. now rewrite Hc.
Qed.

(** X4. With the table the report writes out, followed by any further
    entries, every condition containing "partly cloudy" is answered from
    the [cloudy] entry: the refactoring keeps the order of the chain. *)
Theorem getWeatherInfo_partly_cloudy_is_cloudy
    (more : list (string * Config)) (dflt : View)
    (condition day : string) (wk : bool) :
  includes (toLowerCase condition) "partly cloudy" = true ->
  getWeatherInfo (shown ++ more)%list dflt condition day wk =
    {| icon := "☁️";
       statusText := condition;
       suspensionInfo :=
         "<strong>☁️ Cloudy Weather (" ++ day ++ "):</strong>..." |}.
Proof.
  intros H. unfold getWeatherInfo.
  apply (lookup_first [] (("partlyCloudy", partlyCloudy) :: more)
           "cloudy" cloudy); [constructor|].
  unfold matches. cbn [cfg_keywords cloudy existsb].
  apply orb_true_iff. left.
  now apply (includes_suffix_of_needle _ "partly " "cloudy").
Qed.

(** X5. A keyword that contains another keyword of the same entry is
    dead: appending it to the entry changes no result. *)
Theorem keyword_containing_another_is_dead
    (pre post : list (string * Config)) (key ic : string)
    (tp : string -> bool -> string) (ks : list string) (k k' : string)
    (dflt : View) (condition day : string) (wk : bool) :
  In k' ks ->
  includes k k' = true ->
  getWeatherInfo (pre ++ (key, mkConfig ic (ks ++ [k]) tp) :: post)%list
                 dflt condition day wk =
  getWeatherInfo (pre ++ (key, mkConfig ic ks tp) :: post)%list
                 dflt condition day wk.
Proof.
  intros Hin Hk. unfold getWeatherInfo.
  set (cl := toLowerCase condition).
  assert (Hm : matches cl (mkConfig ic (ks ++ [k]) tp) =
               matches cl (mkConfig ic ks tp)).
  { rewrite matches_app. unfold matches at 2. cbn [cfg_keywords existsb].
    rewrite orb_false_r.
    destruct (includes cl k) eqn:Hc; [|apply orb_false_r].
    rewrite orb_true_r. symmetry. unfold matches. cbn [cfg_keywords].
    apply existsb_exists. exists k'. split; [exact Hin|].
    now apply includes_trans with k. }
  induction pre as [| [k0 c0] pre IH]; cbn [lookup app].
  - now rewrite Hm.
  - now rewrite IH.
Qed.

(** X6. On every condition without "overcast" the table the report writes
    out selects the same icon and status text as the [if / else if] chain
    it is meant to replace; with "overcast" it selects the cloud icon,
    which the chain does not know. *)
Theorem table_agrees_with_chain_up_to_overcast
    (v : View) (condition day : string) (wk : bool) :
  let r := getWeatherInfo shown v condition day wk in
  let c := scan condition (toLowerCase condition) v in
  (includes (toLowerCase condition) "overcast" = false ->
   icon r = icon c /\ statusText r = statusText c) /\
  (includes (toLowerCase condition) "overcast" = true -> icon r = "☁️").
Proof.
  cbv zeta. unfold getWeatherInfo, scan, shown.
  set (cl := toLowerCase condition).
  cbn [lookup]. unfold matches.
  cbn [cfg_keywords cloudy partlyCloudy existsb cfg_icon].
  rewrite !orb_false_r.
  split.
  - intros ->. rewrite orb_false_r.
    destruct (includes cl "cloudy"); [now split|].
    destruct (includes cl "partly") eqn:Hp.
    + now split.
    + assert (includes cl "partly cloudy" = false) as ->.
      { destruct (includes cl "partly cloudy") eqn:Hpc; [|reflexivity].
        rewrite <- Hp. symmetry.
        apply includes_trans with "partly cloudy"; [exact Hpc | reflexivity]. }
      now split.
  - intros ->. now rewrite orb_true_r.
Qed.

(** X2 on an entry behind one that does not match. *)
Lemma getWeatherInfo_first_match_witness :
  getWeatherInfo shown (mkView EmptyString EmptyString EmptyString)
                 "Partly sunny" "Monday" false =
    {| icon := "⛅"; statusText := "Partly sunny";
       suspensionInfo := "<strong>⛅ Partly Cloudy (Monday):</strong>..." |}.
Proof.
  apply (getWeatherInfo_first_match shown [("cloudy", cloudy)] []
           "partlyCloudy" partlyCloudy); [reflexivity | | reflexivity].
  constructor; [reflexivity | constructor].
Defined.

(** X3 on a condition no entry knows. *)
Lemma getWeatherInfo_default_witness :
  getWeatherInfo shown (mkView "🌡️" "Unknown" EmptyString)
                 "Sunny" "Monday" false =
    mkView "🌡️" "Unknown" EmptyString.
Proof.
  apply (getWeatherInfo_default shown).
  repeat (constructor; [reflexivity|]). constructor.
Defined.

(** X4 on the provider's text. *)
Lemma getWeatherInfo_partly_cloudy_is_cloudy_witness :
  includes (toLowerCase "Partly cloudy") "partly cloudy" = true /\
  icon (getWeatherInfo shown (mkView EmptyString EmptyString EmptyString)
                       "Partly cloudy" "Monday" false) = "☁️".
Proof.
  split; [reflexivity|].
  change shown with (shown ++ [])%list.
  rewrite (getWeatherInfo_partly_cloudy_is_cloudy [] _ "Partly cloudy"
             "Monday" false eq_refl).
  reflexivity.
Defined.

(** X5 on the second keyword of [partlyCloudy]. *)
Lemma keyword_containing_another_is_dead_witness :
  (In "partly" ["partly"] /\ includes "partly cloudy" "partly" = true) /\
  getWeatherInfo shown (mkView EmptyString EmptyString EmptyString)
                 "Partly sunny" "Monday" false =
  getWeatherInfo [("cloudy", cloudy); ("partlyCloudy", partlyOnly)]
                 (mkView EmptyString EmptyString EmptyString)
                 "Partly sunny" "Monday" false.
Proof.
  split; [split; [now left | reflexivity]|].
  apply (keyword_containing_another_is_dead [("cloudy", cloudy)] []
           "partlyCloudy" (cfg_icon partlyCloudy)
           (cfg_template partlyCloudy) ["partly"] "partly cloudy" "partly");
    [now left | reflexivity].
Defined.

(** X6 on a text the chain and the table treat alike. *)
Lemma table_agrees_with_chain_up_to_overcast_witness :
  includes (toLowerCase "Cloudy") "overcast" = false /\
  icon (getWeatherInfo shown (mkView EmptyString EmptyString EmptyString)
                       "Cloudy" "Monday" false) =
  icon (scan "Cloudy" (toLowerCase "Cloudy")
             (mkView EmptyString EmptyString EmptyString)).
Proof.
  split; [reflexivity|].
  apply (proj1 (table_agrees_with_chain_up_to_overcast
                  (mkView EmptyString EmptyString EmptyString)
                  "Cloudy" "Monday" false)).
  reflexivity.
Defined.

End ConditionsFacts.

(** ** The retry helper: attempts, waits and how it ends *)

Module RetryFacts.
Import Proxy Retry.
#[local] Open Scope list_scope.

Section Loop.
Variables (net : nat -> FetchResult) (url : string) (maxRetries delay : Z).

(** [j] failing attempts, none of them the last one allowed, take the loop
    from iteration [i] to iteration [i + j]. *)
Lemma loop_skip (j : nat) : forall (g i : nat) (trace : list Event),
  (Z.of_nat (i + j) < maxRetries)%Z ->
  (forall k, (i <= k < i + j)%nat -> failing net k) ->
  loop net url maxRetries delay (j + g) i trace =
  loop net url maxRetries delay g (i + j)
       (trace ++ backoff url delay i j).
Proof.
  induction j as [|j IH]; intros g i trace Hlt Hfail.
  - rewrite Nat.add_0_r. cbn [backoff Nat.add]. now rewrite app_nil_r.
  - destruct (Hfail i ltac:(lia)) as [t Ht].
    cbn [Nat.add loop].
    replace (Z.of_nat i <? maxRetries)%Z with true by (symmetry; apply Z.ltb_lt; lia).
    rewrite Ht.
    replace (Z.of_nat i =? maxRetries - 1)%Z with false
      by (symmetry; apply Z.eqb_neq; lia).
    rewrite IH by (try lia; intros k Hk; apply Hfail; lia).
    replace (S i + j)%nat with (i + S j)%nat by lia.
    cbn [backoff]. rewrite <- !app_assoc. reflexivity.
Qed.

Lemma fuel_split (j : nat) :
  (Z.of_nat j < maxRetries)%Z ->
  S (Z.to_nat maxRetries) = (j + S (Z.to_nat maxRetries - j))%nat.
Proof. lia. Qed.

Lemma loop_finds_ok (j : nat) (r : Response) :
  (Z.of_nat j < maxRetries)%Z ->
  (forall k, (k < j)%nat -> failing net k) ->
  attempt (net j) = inl r ->
  fetchWithRetry net url maxRetries delay =
    Some (Returned r, backoff url delay 0 j ++ [Fetched url]).
Proof.
  intros Hlt Hfail Hok. unfold fetchWithRetry.
  rewrite (fuel_split j Hlt), loop_skip
    by (try (cbn; lia); intros k Hk; apply Hfail; lia).
  cbn [loop Nat.add app].
  replace (Z.of_nat j <? maxRetries)%Z with true by (symmetry; apply Z.ltb_lt; lia).
  now rewrite Hok.
Qed.

Lemma loop_exhausts (n : nat) (t : Thrown) :
  maxRetries = Z.of_nat (S n) ->
  (forall k, (k < n)%nat -> failing net k) ->
  attempt (net n) = inr t ->
  fetchWithRetry net url maxRetries delay =
    Some (Threw t, backoff url delay 0 n ++ [Fetched url]).
Proof.
  intros HM Hfail Hlast. unfold fetchWithRetry.
  rewrite (fuel_split n) by lia.
  rewrite loop_skip by (try (cbn; lia); intros k Hk; apply Hfail; lia).
  cbn [loop Nat.add app].
  replace (Z.of_nat n <? maxRetries)%Z with true by (symmetry; apply Z.ltb_lt; lia).
  rewrite Hlast.
  now replace (Z.of_nat n =? maxRetries - 1)%Z with true
    by (symmetry; apply Z.eqb_eq; lia).
Qed.

Lemma loop_not_entered :
  (maxRetries <= 0)%Z ->
  fetchWithRetry net url maxRetries delay = Some (ReturnedUndefined, []).
Proof.
  intros H. unfold fetchWithRetry. cbn [loop].
  now replace (Z.of_nat 0 <? maxRetries)%Z with false
    by (symmetry; apply Z.ltb_ge; lia).
Qed.

(** Among the first [n] attempts either one succeeds, or all fail. *)
Lemma first_success (n : nat) :
  (exists j r, (j < n)%nat /\ (forall k, (k < j)%nat -> failing net k) /\
               attempt (net j) = inl r) \/
  (forall k, (k < n)%nat -> failing net k).
Proof.
  induction n as [|n [(j & r & Hj & Hf & Hr) | Hall]].
  - right. intros k Hk. lia.
  - left. exists j, r. split; [lia | now split].
  - destruct (attempt (net n)) as [r | t] eqn:Ha.
    + left. exists n, r. split; [lia | now split].
    + right. intros k Hk. destruct (Nat.eq_dec k n) as [-> | Hne].
      * now exists t.
      * apply Hall. lia.
Qed.

(** The three ways a call ends. *)
Lemma retry_cases :
  ((maxRetries <= 0)%Z /\
   fetchWithRetry net url maxRetries delay = Some (ReturnedUndefined, [])) \/
  (exists j r, (Z.of_nat j < maxRetries)%Z /\ ok r = true /\
     fetchWithRetry net url maxRetries delay =
       Some (Returned r, backoff url delay 0 j ++ [Fetched url])) \/
  (exists n t, maxRetries = Z.of_nat (S n) /\
     fetchWithRetry net url maxRetries delay =
       Some (Threw t, backoff url delay 0 n ++ [Fetched url])).
Proof.
  destruct (Z_le_gt_dec maxRetries 0) as [Hle | Hgt].
  - left. split; [exact Hle | now apply loop_not_entered].
  - right.
    destruct (first_success (Z.to_nat maxRetries))
      as [(j & r & Hj & Hf & Hr) | Hall].
    + left. exists j, r. split; [lia|]. split.
      * unfold attempt in Hr. destruct (net j) as [e | r']; [discriminate|].
        destruct (ok r') eqn:Hok; [|discriminate]. congruence.
      * apply loop_finds_ok; [lia | exact Hf | exact Hr].
    + right. destruct (Z.to_nat maxRetries) as [|n] eqn:Hn; [lia|].
      destruct (Hall n ltac:(lia)) as [t Ht].
      exists n, t. split; [lia|].
      apply loop_exhausts; [lia | | exact Ht].
      intros k Hk. apply Hall. lia.
Qed.

Lemma fetches_app (t1 t2 : list Event) :
  fetches (t1 ++ t2) = (fetches t1 + fetches t2)%nat.
Proof.
  induction t1 as [|[u | ms] t1 IH]; cbn [app fetches]; [reflexivity | |];
    now rewrite IH.
Qed.

Lemma slept_app (t1 t2 : list Event) :
  slept (t1 ++ t2) = (slept t1 + slept t2)%Z.
Proof.
  induction t1 as [|[u | ms] t1 IH]; cbn [app slept]; [reflexivity | |];
    rewrite IH; lia.
Qed.

Lemma fetches_backoff (i j : nat) : fetches (backoff url delay i j) = j.
Proof.
  revert i. induction j as [|j IH]; intros i; cbn [backoff fetches];
    [reflexivity | now rewrite IH].
Qed.

Lemma slept_backoff (i j : nat) :
  slept (backoff url delay i j) =
  (delay * 2 ^ Z.of_nat i * (2 ^ Z.of_nat j - 1))%Z.
Proof.
  revert i. induction j as [|j IH]; intros i; cbn [backoff slept].
  - cbn. lia.
  - rewrite IH. rewrite !Nat2Z.inj_succ, !Z.pow_succ_r by lia. lia.
Qed.

End Loop.

(** X7. The helper resolves to the first ok response: after [j] failing
    attempts it has called [fetch] [j + 1] times, waited
    [delay * 2 ^ i] after the [i]-th failure, and calls no more. *)
Theorem retry_returns_first_ok (net : nat -> FetchResult) (url : string)
    (maxRetries delay : Z) (j : nat) (r : Response) :
  (Z.of_nat j < maxRetries)%Z ->
  (forall k, (k < j)%nat -> failing net k) ->
  net j = Resolves r ->
  ok r = true ->
  fetchWithRetry net url maxRetries delay =
    Some (Returned r, backoff url delay 0 j ++ [Fetched url]).
Proof.
  intros Hlt Hfail Hnet Hok. apply loop_finds_ok; [exact Hlt | exact Hfail |].
  unfold attempt. now rewrite Hnet, Hok.
Qed.

(** X8. When all [maxRetries] attempts fail, the helper rethrows what the
    last attempt threw (for a response that is not ok, the error
    "HTTP <status>"), and does not wait after it. *)
Theorem retry_rethrows_last_failure (net : nat -> FetchResult) (url : string)
    (maxRetries delay : Z) (n : nat) (t : Thrown) :
  maxRetries = Z.of_nat (S n) ->
  (forall k, (k < n)%nat -> failing net k) ->
  attempt (net n) = inr t ->
  fetchWithRetry net url maxRetries delay =
    Some (Threw t, backoff url delay 0 n ++ [Fetched url]).
Proof. intros HM Hfail Hlast. now apply loop_exhausts. Qed.

(** X9. With [maxRetries] zero or negative the loop body never runs: the
    helper resolves to [undefined] without calling [fetch]. *)
Theorem retry_without_attempts_is_undefined (net : nat -> FetchResult)
    (url : string) (maxRetries delay : Z) :
  (maxRetries <= 0)%Z ->
  fetchWithRetry net url maxRetries delay = Some (ReturnedUndefined, []).
Proof. apply loop_not_entered. Qed.

(** X10. Every call ends, after at most [maxRetries] calls of [fetch], and
    having waited [delay * (2 ^ (a - 1) - 1)] in total when it made [a]
    attempts. *)
Theorem retry_is_bounded (net : nat -> FetchResult) (url : string)
    (maxRetries delay : Z) :
  exists out trace,
    fetchWithRetry net url maxRetries delay = Some (out, trace) /\
    (fetches trace <= Z.to_nat maxRetries)%nat /\
    slept trace = (delay * (2 ^ Z.of_nat (fetches trace - 1) - 1))%Z.
Proof.
  destruct (retry_cases net url maxRetries delay)
    as [[Hle ->] | [(j & r & Hj & _ & ->) | (n & t & HM & ->)]].
  - exists ReturnedUndefined, []. split; [reflexivity|]. cbn. lia.
  - eexists _, _. split; [reflexivity|].
    rewrite fetches_app, slept_app, fetches_backoff, slept_backoff.
    cbn [fetches slept]. replace (j + 1 - 1)%nat with j by lia.
    split; [lia|]. cbn. lia.
  - eexists _, _. split; [reflexivity|].
    rewrite fetches_app, slept_app, fetches_backoff, slept_backoff.
    cbn [fetches slept]. replace (n + 1 - 1)%nat with n by lia.
    split; [lia|]. cbn. lia.
Qed.

(** X11. What a caller can rely on: a response the helper resolves to is
    ok; it resolves to [undefined] only when [maxRetries] is not positive;
    and it throws only after exactly [maxRetries] attempts. *)
Theorem retry_outcome_sound (net : nat -> FetchResult) (url : string)
    (maxRetries delay : Z) (out : Outcome) (trace : list Event) :
  fetchWithRetry net url maxRetries delay = Some (out, trace) ->
  match out with
  | Returned r => ok r = true
  | ReturnedUndefined => (maxRetries <= 0)%Z /\ trace = []
  | Threw _ => (1 <= maxRetries)%Z /\ fetches trace = Z.to_nat maxRetries
  end.
Proof.
  destruct (retry_cases net url maxRetries delay)
    as [[Hle ->] | [(j & r & Hj & Hok & ->) | (n & t & HM & ->)]];
    intros [= <- <-].
  - now split.
  - exact Hok.
  - split; [lia|]. rewrite fetches_app, fetches_backoff. cbn [fetches]. lia.
Qed.

(** X7 on a network that fails twice, then answers. *)
Lemma retry_returns_first_ok_witness :
  fetchWithRetry flaky "/api/weather" default_maxRetries default_delay =
    Some (Returned Scenario.forecast,
          [Fetched "/api/weather"; Slept 1000;
           Fetched "/api/weather"; Slept 2000;
           Fetched "/api/weather"]).
Proof.
  apply (retry_returns_first_ok flaky "/api/weather" 3 1000 2
           Scenario.forecast); [reflexivity | | reflexivity | reflexivity].
  intros [|[|k]] Hk; [eexists; reflexivity | eexists; reflexivity | lia].
Defined.

(** X8 on a network that is down. *)
Lemma retry_rethrows_last_failure_witness :
  fetchWithRetry down "/api/weather" default_maxRetries default_delay =
    Some (Threw (FetchRejected Scenario.network_down),
          [Fetched "/api/weather"; Slept 1000;
           Fetched "/api/weather"; Slept 2000;
           Fetched "/api/weather"]).
Proof.
  apply (retry_rethrows_last_failure down "/api/weather" 3 1000 2
           (FetchRejected Scenario.network_down));
    [reflexivity | | reflexivity].
  intros k _. eexists; reflexivity.
Defined.

(** X9 with no attempt allowed. *)
Lemma retry_without_attempts_is_undefined_witness :
  fetchWithRetry down "/api/weather" 0 default_delay =
    Some (ReturnedUndefined, []).
Proof.
  apply (retry_without_attempts_is_undefined down "/api/weather" 0 1000).
  reflexivity.
Defined.

(** X11 on the network that is down. *)
Lemma retry_outcome_sound_witness :
  (1 <= default_maxRetries)%Z /\
  fetches [Fetched "/api/weather"; Slept 1000;
           Fetched "/api/weather"; Slept 2000;
           Fetched "/api/weather"] = Z.to_nat default_maxRetries.
Proof.
  exact (retry_outcome_sound down "/api/weather" 3 1000
           (Threw (FetchRejected Scenario.network_down)) _ eq_refl).
Defined.

End RetryFacts.

(** ** The interval management: one pair of timers, and when it leaks *)

Module IntervalsFacts.
Import Intervals.
#[local] Open Scope N_scope.

Lemma start_on_empty (p : Page) :
  0 < next_handle p -> active p = ∅ -> hidden p = false ->
  steady (call initializeAll (call updateWeatherInfo (startIntervals p))).
Proof.
  intros Hn He Hh. split; cbn; [lia|]. rewrite Hh.
  exists (next_handle p), (next_handle p + 1).
  repeat split; try lia. now rewrite He.
Qed.

Lemma stop_pair (p : Page) (w r : N) :
  weatherInterval p = Some w -> reminderInterval p = Some r ->
  w <> 0 -> r <> 0 ->
  active p = <[r := mkTimer initializeAll 3600000]>
               {[w := mkTimer updateWeatherInfo 600000]} ->
  active (stopIntervals p) = ∅.
Proof.
  intros Hw Hr Hw0 Hr0 Ha. unfold stopIntervals, clear_if_set.
  rewrite Hw. destruct (N.eqb_spec w 0) as [|_]; [contradiction|].
  cbn [clearInterval reminderInterval]. rewrite Hr.
  destruct (N.eqb_spec r 0) as [|_]; [contradiction|].
  cbn [clearInterval active]. rewrite Ha.
  apply map_eq. intros i. rewrite lookup_empty.
  destruct (decide (i = r)) as [->|Hir]; [now rewrite lookup_delete_eq|].
  rewrite lookup_delete_ne by congruence.
  destruct (decide (i = w)) as [->|Hiw]; [now rewrite lookup_delete_eq|].
  rewrite lookup_delete_ne, lookup_insert_ne, lookup_singleton_ne; congruence.
Qed.

Lemma stop_keeps_next (p : Page) :
  next_handle (stopIntervals p) = next_handle p /\
  hidden (stopIntervals p) = hidden p.
Proof.
  unfold stopIntervals, clear_if_set.
  destruct (weatherInterval p) as [w|]; [destruct (w =? 0)|];
    cbn [clearInterval reminderInterval];
    (destruct (reminderInterval p) as [r|]; [destruct (r =? 0)|]); now cbn.
Qed.

Lemma steady_step (p : Page) (e : bool) :
  steady p -> e = negb (hidden p) -> steady (visibilitychange e p).
Proof.
  intros [Hn Hs] ->. unfold visibilitychange, onVisibilityChange.
  destruct (hidden p) eqn:Hh; cbn [negb set_hidden hidden].
  - apply start_on_empty; cbn; auto.
  - destruct Hs as (w & r & Hw & Hr & _ & Hw0 & Hr0 & Ha).
    split.
    + now rewrite (proj1 (stop_keeps_next _)).
    + rewrite (proj2 (stop_keeps_next _)). cbn [set_hidden hidden].
      now apply (stop_pair _ w r).
Qed.

Lemma hidden_after_event (p : Page) (e : bool) :
  hidden (visibilitychange e p) = e.
Proof.
  unfold visibilitychange, onVisibilityChange.
  destruct e; cbn [set_hidden hidden]; [|reflexivity].
  now rewrite (proj2 (stop_keeps_next _)).
Qed.

Lemma steady_after (events : list bool) : forall p,
  steady p -> alternates (hidden p) events -> steady (after events p).
Proof.
  induction events as [|e rest IH]; intros p Hs Halt; [exact Hs|].
  destruct Halt as [He Hrest]. cbn [after fold_left].
  apply IH.
  - now apply steady_step.
  - now rewrite hidden_after_event.
Qed.

Lemma steady_load : steady (load false).
Proof.
  split; [reflexivity|]. exists 1, 2. repeat split; discriminate.
Qed.

Lemma stop_lookup_below (n h : N) (q : Page) :
  handles_from n q -> h < n ->
  active (stopIntervals q) !! h = active q !! h.
Proof.
  intros (_ & Hw & Hr) Hh. unfold stopIntervals, clear_if_set.
  destruct (weatherInterval q) as [w|] eqn:Ew.
  - specialize (Hw w eq_refl).
    destruct (w =? 0); cbn [clearInterval reminderInterval active];
      (destruct (reminderInterval q) as [r|] eqn:Er;
       [specialize (Hr r eq_refl); destruct (r =? 0)|]);
      cbn [clearInterval active];
      rewrite ?lookup_delete_ne by lia; reflexivity.
  - cbn [reminderInterval].
    destruct (reminderInterval q) as [r|] eqn:Er;
      [specialize (Hr r eq_refl); destruct (r =? 0)|];
      cbn [clearInterval active];
      rewrite ?lookup_delete_ne by lia; reflexivity.
Qed.

Lemma stop_handles_from (n : N) (q : Page) :
  handles_from n q -> handles_from n (stopIntervals q).
Proof.
  intros (Hn & Hw & Hr). unfold stopIntervals, clear_if_set.
  destruct (weatherInterval q) as [w|] eqn:Ew; [destruct (w =? 0)|];
    cbn [clearInterval reminderInterval];
    (destruct (reminderInterval q) as [r|] eqn:Er; [destruct (r =? 0)|]);
    (split; [exact Hn | split]); cbn; intros h Hh;
    try discriminate; try (apply Hw; congruence); try (apply Hr; congruence).
Qed.

Lemma start_lookup_below (h : N) (q : Page) :
  h < next_handle q ->
  active (startIntervals q) !! h = active q !! h.
Proof.
  intros Hh. cbn. now rewrite !lookup_insert_ne by lia.
Qed.

Lemma start_handles_from (n : N) (q : Page) :
  n <= next_handle q -> handles_from n (startIntervals q).
Proof.
  intros Hn. split; [cbn; lia|]. split; cbn; intros h [= <-]; lia.
Qed.

(** An event on a page whose variables hold no handle below [n] leaves
    every interval below [n] as it is. *)
Lemma event_below (n h : N) (e : bool) (q : Page) :
  handles_from n q -> h < n ->
  active (visibilitychange e q) !! h = active q !! h /\
  handles_from n (visibilitychange e q).
Proof.
  intros Hq Hh. unfold visibilitychange, onVisibilityChange.
  assert (Hq' : handles_from n (set_hidden e q)) by exact Hq.
  destruct e; cbn [set_hidden hidden].
  - split; [|now apply stop_handles_from].
    change (active q !! h) with (active (set_hidden true q) !! h).
    now apply (stop_lookup_below n).
  - destruct Hq as (Hn & _). split.
    + change (active (startIntervals (set_hidden false q)) !! h = active q !! h).
      rewrite start_lookup_below; [reflexivity | cbn; lia].
    + apply (start_handles_from n (set_hidden false q)). exact Hn.
Qed.

Lemma events_below (n h : N) (events : list bool) : forall q,
  handles_from n q -> h < n ->
  active (after events q) !! h = active q !! h.
Proof.
  induction events as [|e rest IH]; intros q Hq Hh; [reflexivity|].
  cbn [after fold_left].
  destruct (event_below n h e q Hq Hh) as [Hl Hq'].
  fold (after rest (visibilitychange e q)). now rewrite IH.
Qed.

(** X12. Loaded visible and driven by events that each change the
    visibility, the page runs exactly one weather interval and one
    reminder interval while visible, and none while hidden. *)
Theorem alternating_visibility_keeps_one_pair (events : list bool) :
  alternates false events ->
  let p := after events (load false) in
  if hidden p then active p = ∅ else one_pair p.
Proof.
  intros Halt. cbv zeta.
  destruct (steady_after events (load false) steady_load Halt) as [_ Hs].
  destruct (hidden (after events (load false))); [exact Hs|].
  destruct Hs as (w & r & Hw & Hr & Hne & _ & _ & Ha).
  now exists w, r.
Qed.

(** X13. On a page whose running intervals all have handles below the
    next one, [stopIntervals] right after [startIntervals] leaves the
    running intervals as they were before. *)
Theorem stop_undoes_start (p : Page) :
  0 < next_handle p ->
  (forall h, next_handle p <= h -> active p !! h = None) ->
  active (stopIntervals (startIntervals p)) = active p.
Proof.
  intros Hn Hfresh. unfold stopIntervals, clear_if_set. cbn.
  destruct (N.eqb_spec (next_handle p) 0) as [|_]; [lia|]. cbn.
  destruct (N.eqb_spec (next_handle p + 1) 0) as [|_]; [lia|]. cbn.
  apply map_eq. intros i.
  destruct (decide (i = next_handle p + 1)) as [->|H1].
  { rewrite lookup_delete_eq. symmetry. apply Hfresh. lia. }
  rewrite lookup_delete_ne by congruence.
  destruct (decide (i = next_handle p)) as [->|H0].
  { rewrite lookup_delete_eq. symmetry. apply Hfresh. lia. }
  now rewrite lookup_delete_ne, !lookup_insert_ne by congruence.
Qed.

(** X14. A "visible" event never clears anything: an interval that is
    running when it arrives (its handle is an old one) keeps running
    through every later sequence of events, because the variables are
    overwritten with new handles. *)
Theorem visible_event_orphans_running_intervals
    (p : Page) (h : N) (t : Timer) (events : list bool) :
  active p !! h = Some t ->
  h < next_handle p ->
  active (after events (visibilitychange false p)) !! h = Some t.
Proof.
  intros Ha Hh.
  rewrite (events_below (next_handle p) h events); [| | exact Hh].
  - unfold visibilitychange, onVisibilityChange. cbn [set_hidden hidden].
    change (active (startIntervals (set_hidden false p)) !! h = Some t).
    rewrite start_lookup_below; [exact Ha | exact Hh].
  - unfold visibilitychange, onVisibilityChange. cbn [set_hidden hidden].
    apply (start_handles_from (next_handle p) (set_hidden false p)).
    cbn. lia.
Qed.

(** X12 on four events. *)
Lemma alternating_visibility_keeps_one_pair_witness :
  alternates false [true; false; true; false] /\
  one_pair (after [true; false; true; false] (load false)).
Proof.
  split; [cbn; tauto|].
  exact (alternating_visibility_keeps_one_pair [true; false; true; false]
           ltac:(cbn; tauto)).
Defined.

(** X13 right after load. *)
Lemma stop_undoes_start_witness :
  active (stopIntervals (startIntervals (load false))) = active (load false).
Proof.
  apply (stop_undoes_start (load false)); [reflexivity|].
  intros h Hh. cbn in Hh. cbn.
  now rewrite !lookup_insert_ne, lookup_empty by lia.
Defined.

(** X14 on a page loaded in the background and then shown: the first
    weather interval survives hiding the page again. *)
Lemma visible_event_orphans_running_intervals_witness :
  active (after [true] (visibilitychange false (load true))) !! 1
    = Some (mkTimer updateWeatherInfo 600000).
Proof.
  apply (visible_event_orphans_running_intervals (load true) 1
           (mkTimer updateWeatherInfo 600000) [true]); reflexivity.
Defined.

End IntervalsFacts.

(** ** The in-flight guard: never two updates at once *)

Module DebounceFacts.
Import Debounce.

Lemma step_guarded (ev : GuardEvent) (s s' : GuardState) :
  guarded s -> step ev s = Some s' ->
  guarded s' /\
  (entered s' + skipped s' =
   entered s + skipped s + invocations [ev])%nat.
Proof.
  intros [[Hu Hf] | [Hu Hf]]; destruct ev; cbn [step invocations];
    rewrite ?Hu, ?Hf; intros [= <-]; cbn; (split; [|lia]).
  - left. now split.
  - right. now split.
  - left. now split.
Qed.

Lemma invocations_cons (ev : GuardEvent) (rest : list GuardEvent) :
  invocations (ev :: rest) = (invocations [ev] + invocations rest)%nat.
Proof. destruct ev; reflexivity. Qed.

Lemma replay_guarded (events : list GuardEvent) : forall s s',
  guarded s -> replay events s = Some s' ->
  guarded s' /\
  (entered s' + skipped s' =
   entered s + skipped s + invocations events)%nat.
Proof.
  induction events as [|ev rest IH]; intros s s' Hg Hr; cbn [replay] in Hr.
  - injection Hr as <-. split; [exact Hg | cbn; lia].
  - destruct (step ev s) as [s1|] eqn:Hs; [|discriminate].
    destruct (step_guarded ev s s1 Hg Hs) as [Hg1 Hc1].
    destruct (IH s1 s' Hg1 Hr) as [Hg' Hc']. split; [exact Hg'|].
    rewrite invocations_cons. lia.
Qed.

(** X15. Whatever the order of invocations and completions, at most one
    update is in flight; the flag is set exactly while one is, so it
    never sticks; and every invocation either entered or was skipped. *)
Theorem guard_allows_one_update_in_flight (events : list GuardEvent) (s : GuardState) :
  replay events initial = Some s ->
  (in_flight s <= 1)%nat /\
  (isUpdating s = true <-> in_flight s = 1%nat) /\
  (entered s + skipped s = invocations events)%nat.
Proof.
  intros Hr.
  destruct (replay_guarded events initial s) as [Hg Hc];
    [right; now split | exact Hr |].
  cbn in Hc. destruct Hg as [[Hu Hf] | [Hu Hf]]; rewrite Hu, Hf.
  - repeat split; auto.
  - repeat split; auto; discriminate.
Qed.

(** X15 on a timer that fires twice before the first update completes. *)
Lemma guard_allows_one_update_in_flight_witness :
  replay [Invoke; Invoke; Settle; Invoke] initial =
    Some {| isUpdating := true; in_flight := 1; entered := 2; skipped := 1 |}
  /\ (1 <= 1)%nat.
Proof.
  split; [reflexivity|].
  exact (proj1 (guard_allows_one_update_in_flight
                  [Invoke; Invoke; Settle; Invoke] _ eq_refl)).
Defined.

End DebounceFacts.

(** ** More on the proxy handler: calls, caching, logs *)

Module HandlerFacts.
Import JS Proxy ProxyFacts.

Section More.
Context {RT : Runtime}.
Implicit Types (w : World) (env : Env) (req : Request).

(** The final state on each way through the handler after the method and
    the key have been accepted. *)
Lemma run_get_cases w env req :
  method req = "GET" -> truthy (WEATHER_API_KEY env) = true ->
  (exists e, run w env req = caught w env e) \/
  (exists r t, ok r = false /\
     run w env req =
     {| res := {| headers := cors_headers; statusCode := status r;
                  sent := Some (upstream_error (status r)) |};
        log := [[LStr "Weather API error:"; LNum (status r); LStr t]];
        calls := [upstream_call (WEATHER_API_KEY env)] |}) \/
  (exists v,
     run w env req =
     {| res := {| headers := <["Cache-Control" := cache_control]> cors_headers;
                  statusCode := 200; sent := Some (Data v) |};
        log := [];
        calls := [upstream_call (WEATHER_API_KEY env)] |}).
Proof.
  intros Hm Hk.
  destruct (fetch_cases (fetch_oracle w (upstream_call (WEATHER_API_KEY env))))
    as [[e Ht] | [(r & t & Hf & Hok & Hb) | (r & t & v & Hf & Hok & Hb & Hp)]].
  - left. exists e. now apply run_throws.
  - right; left. exists r, t. split; [exact Hok|].
    now apply run_upstream_error.
  - right; right. exists v. now apply (run_success w env req r t v).
Qed.

Lemma cors_has_no_cache_control :
  cors_headers !! "Cache-Control" = None.
Proof.
  unfold cors_headers. rewrite !lookup_insert_ne by discriminate.
  apply lookup_empty.
Qed.

(** X16. The handler calls the upstream at most once: exactly once, with
    the fixed URL built from the key and the fixed User-Agent, when the
    method is GET and the key is a non-empty string, and not at all
    otherwise. *)
Theorem upstream_called_once_or_never w env req :
  calls (run w env req) =
    if String.eqb (method req) "GET" && truthy (WEATHER_API_KEY env)
    then [{| url := "https://api.weatherapi.com/v1/forecast.json?key="
                    ++ interpolate (WEATHER_API_KEY env)
                    ++ "&q=Balangkayan%2CEastern%20Samar%2CPhilippines"
                    ++ "&days=1&aqi=no&alerts=yes";
             call_headers := [("User-Agent", "BSHS-Weather-Service/1.0")] |}]
    else [].
Proof.
  destruct (method_cases req) as [Hm | [[Ho Hg] | Hm]].
  - rewrite run_options, Hm by assumption. reflexivity.
  - rewrite run_other_method by assumption.
    destruct (String.eqb_spec (method req) "GET"); [contradiction | reflexivity].
  - rewrite Hm. cbn [String.eqb andb].
    change (String.eqb "GET" "GET") with true. cbn [andb].
    destruct (truthy (WEATHER_API_KEY env)) eqn:Hk.
    + destruct (run_get_cases w env req Hm Hk)
        as [[e ->] | [(r & t & _ & ->) | [v ->]]]; reflexivity.
    + now rewrite run_no_key.
Qed.

(** X17. No error escapes the handler and every invocation sends exactly
    one of its bodies, whatever the network does. *)
Theorem handler_always_answers w env req :
  fst (invoke w env req) = inr tt /\
  exists p, sent (res (run w env req)) = Some p.
Proof.
  destruct (handler_responds w env req) as [Hr Hs]. split; [exact Hr|].
  destruct (sent (res (run w env req))) as [p|]; [now exists p | contradiction].
Qed.

(** X18. Only the relayed forecast is marked cacheable: the Cache-Control
    header is present exactly on the responses that carry the upstream
    data; the preflight answer and every error answer have none. *)
Theorem cache_control_only_with_data w env req :
  headers (res (run w env req)) !! "Cache-Control" =
    match sent (res (run w env req)) with
    | Some (Data _) => Some "public, s-maxage=300, stale-while-revalidate=600"
    | _ => None
    end.
Proof.
  destruct (method_cases req) as [Hm | [[Ho Hg] | Hm]].
  - rewrite run_options by assumption. apply cors_has_no_cache_control.
  - rewrite run_other_method by assumption. apply cors_has_no_cache_control.
  - destruct (truthy (WEATHER_API_KEY env)) eqn:Hk.
    + destruct (run_get_cases w env req Hm Hk)
        as [[e ->] | [(r & t & _ & ->) | [v ->]]];
        cbn [res headers sent caught upstream_error unavailable];
        try apply cors_has_no_cache_control.
      apply lookup_insert_eq.
    + rewrite run_no_key by assumption. apply cors_has_no_cache_control.
Qed.

(** X19. A status in the range 200-299 is sent only with an empty body
    (the preflight) or with the upstream data: no error body ever travels
    under a success status. *)
Theorem success_status_means_preflight_or_data w env req :
  (200 <= statusCode (res (run w env req)) <= 299)%N ->
  sent (res (run w env req)) = Some Empty \/
  exists v, sent (res (run w env req)) = Some (Data v).
Proof.
  destruct (method_cases req) as [Hm | [[Ho Hg] | Hm]].
  - rewrite run_options by assumption. now left.
  - rewrite run_other_method by assumption. cbn. lia.
  - destruct (truthy (WEATHER_API_KEY env)) eqn:Hk.
    + destruct (run_get_cases w env req Hm Hk)
        as [[e ->] | [(r & t & Hok & ->) | [v ->]]]; cbn.
      * lia.
      * intros Hs. unfold ok in Hok. apply andb_false_iff in Hok.
        destruct Hok as [H | H]; apply N.leb_gt in H; lia.
      * intros _. right. now exists v.
    + rewrite run_no_key by assumption. cbn. lia.
Qed.

(** X20. Every upstream status in the range 200-299, not only 200, whose
    body parses is answered with status 200: on success the upstream
    status is not relayed. *)
Theorem any_ok_status_is_answered_200 w env req r t v :
  method req = "GET" ->
  truthy (WEATHER_API_KEY env) = true ->
  fetch_oracle w (upstream_call (WEATHER_API_KEY env)) = Resolves r ->
  (200 <= status r <= 299)%N ->
  body_read r = BodyText t ->
  JSON_parse t = inr v ->
  statusCode (res (run w env req)) = 200%N /\
  sent (res (run w env req)) = Some (Data v).
Proof.
  intros Hm Hk Hf Hs Hb Hp.
  assert (Hok : ok r = true).
  { unfold ok. apply andb_true_iff. split; apply N.leb_le; lia. }
  now rewrite (run_success w env req r t v).
Qed.

(** X21. The secret reaches the URL of the outbound call and nothing
    else: two executions with present secrets, the same settlement of the
    call and the same clock leave the same response and the same log. *)
Theorem secret_reaches_only_the_url w1 w2 req k1 k2 :
  truthy (Some k1) = true -> truthy (Some k2) = true ->
  fetch_oracle w1 (upstream_call (Some k1)) =
    fetch_oracle w2 (upstream_call (Some k2)) ->
  now_iso w1 = now_iso w2 ->
  res (run w1 (mkEnv (Some k1)) req) = res (run w2 (mkEnv (Some k2)) req) /\
  log (run w1 (mkEnv (Some k1)) req) = log (run w2 (mkEnv (Some k2)) req).
Proof.
  intros H1 H2 Hf Hn.
  destruct (method_cases req) as [Hm | [[Ho Hg] | Hm]].
  - now rewrite !run_options.
  - now rewrite !run_other_method.
  - destruct (fetch_cases (fetch_oracle w1 (upstream_call (Some k1))))
      as [[e Ht] | [(r & t & Hf1 & Hok & Hb) | (r & t & v & Hf1 & Hok & Hb & Hp)]].
    + rewrite (run_throws w1 (mkEnv (Some k1)) req e) by assumption.
      rewrite (run_throws w2 (mkEnv (Some k2)) req e);
        [| assumption | assumption | cbn [WEATHER_API_KEY]; now rewrite <- Hf].
      unfold caught. cbn [res log]. now rewrite Hn.
    + rewrite (run_upstream_error w1 (mkEnv (Some k1)) req r t) by assumption.
      rewrite (run_upstream_error w2 (mkEnv (Some k2)) req r t); try assumption.
      * now split.
      * cbn [WEATHER_API_KEY] in *. congruence.
    + rewrite (run_success w1 (mkEnv (Some k1)) req r t v) by assumption.
      rewrite (run_success w2 (mkEnv (Some k2)) req r t v); try assumption.
      * now split.
      * cbn [WEATHER_API_KEY] in *. congruence.
Qed.

End More.

Module Exercised.
Import Scenario.
#[local] Existing Instance Fragment.runtime.

(** X19 on the forecast answer. *)
Lemma success_status_means_preflight_or_data_witness :
  (200 <= statusCode (res (run (world (Resolves forecast)) configured get))
       <= 299)%N /\
  exists v, sent (res (run (world (Resolves forecast)) configured get))
            = Some (Data v).
Proof.
  split; [vm_compute; split; discriminate|].
  destruct (success_status_means_preflight_or_data
              (RT := Fragment.runtime)
              (world (Resolves forecast)) configured get) as [H | H].
  - vm_compute; split; discriminate.
  - discriminate H.
  - exact H.
Defined.

(** X20 on an upstream 206. *)
Lemma any_ok_status_is_answered_200_witness :
  (200 <= status partial_content <= 299)%N /\
  statusCode (res (run (world (Resolves partial_content)) configured get))
    = 200%N /\
  sent (res (run (world (Resolves partial_content)) configured get))
    = Some (Data forecast_value).
Proof.
  split; [split; discriminate|].
  apply (any_ok_status_is_answered_200 (RT := Fragment.runtime)
           (world (Resolves partial_content)) configured get
           partial_content forecast_text forecast_value);
    [reflexivity | reflexivity | reflexivity | split; discriminate
    | reflexivity | reflexivity].
Defined.

(** X21 on two secrets and a network that is down. *)
Lemma secret_reaches_only_the_url_witness :
  res (run (world (Rejects network_down)) configured get) =
    res (run (world (Rejects network_down)) other_secret get) /\
  log (run (world (Rejects network_down)) configured get) =
    log (run (world (Rejects network_down)) other_secret get).
Proof.
  apply (secret_reaches_only_the_url (RT := Fragment.runtime)
           (world (Rejects network_down)) (world (Rejects network_down))
           get "s3cr3t" "0th3r");
    [reflexivity | reflexivity | vm_compute; reflexivity | reflexivity].
Defined.

End Exercised.

End HandlerFacts.
